(** * Minesweeper board: reveal / flag state machine

    A shallow embedding of [minesweeper.py] (class [MineSweeperBoard]) and
    the properties of its [action] / [flag] / [reveal] / [open_mines]
    operations.

    Python integers are [Z]; a position is a pair of integers; the two
    dictionaries ([grid] and [hints]) are finite maps keyed by positions.
    The object is mutated in place by the Python code; here every operation
    takes the board and returns the board it leaves behind, also when it
    raises. *)

From Stdlib Require Import ZArith Lia Bool.
From stdpp Require Import base option list gmap fin_maps fin_sets.

Local Open Scope Z_scope.

(** ** Cell states (module-level constants of [minesweeper.py]) *)

Definition _SAFE : Z := 0.
Definition _MINE : Z := 1.
Definition _FLAGGED : Z := 2.
Definition _OPEN : Z := 4.
Definition _OPEN_MINE : Z := Z.lor _MINE _OPEN.

(** ** The board object *)

Record MineSweeperBoard : Type := mkBoard {
  grid : gmap (Z * Z) Z;
  mines_left : Z;
  hints : gmap (Z * Z) Z;
  cols : Z;
  lines : Z;
  last_clicked : option Z;
  cells_revealed : Z;
  safe_cells : Z
}.

Definition set_grid (g : gmap (Z * Z) Z) (b : MineSweeperBoard) :=
  mkBoard g (mines_left b) (hints b) (cols b) (lines b)
          (last_clicked b) (cells_revealed b) (safe_cells b).
Definition set_mines_left (m : Z) (b : MineSweeperBoard) :=
  mkBoard (grid b) m (hints b) (cols b) (lines b)
          (last_clicked b) (cells_revealed b) (safe_cells b).
Definition set_hints (h : gmap (Z * Z) Z) (b : MineSweeperBoard) :=
  mkBoard (grid b) (mines_left b) h (cols b) (lines b)
          (last_clicked b) (cells_revealed b) (safe_cells b).
Definition set_last_clicked (s : option Z) (b : MineSweeperBoard) :=
  mkBoard (grid b) (mines_left b) (hints b) (cols b) (lines b)
          s (cells_revealed b) (safe_cells b).
Definition set_cells_revealed (n : Z) (b : MineSweeperBoard) :=
  mkBoard (grid b) (mines_left b) (hints b) (cols b) (lines b)
          (last_clicked b) n (safe_cells b).

(** [__init__(self, grid, mines, cols, lines)] *)
Definition init (g : gmap (Z * Z) Z) (mines cols lines : Z) : MineSweeperBoard :=
  {| grid := g; mines_left := mines; hints := ∅; cols := cols; lines := lines;
     last_clicked := None; cells_revealed := 0;
     safe_cells := cols * lines - mines |}.

(** [range(n)] *)
Definition range (n : Z) : list Z := seqZ 0 n.

(** [list(itertools.product(range(cols), range(lines)))] *)
Definition cells (cols lines : Z) : list (Z * Z) :=
  x ← range cols; y ← range lines; [(x, y)].

(** [random(cls, cols, lines, num_of_mines)].  The outcome of
    [random.sample(cells, num_of_mines)] is the argument [mines]; its length
    is [num_of_mines]. *)
Definition random (cols lines : Z) (mines : list (Z * Z)) : MineSweeperBoard :=
  let cs := cells cols lines in
  let g : gmap (Z * Z) Z :=
    list_to_map ((λ p, (p, if bool_decide (p ∈ mines) then _MINE else _SAFE)) <$> cs) in
  init g (Z.of_nat (length mines)) cols lines.

(** What [random.sample] can return: distinct cells of the grid. *)
Definition is_sample (cols lines : Z) (mines : list (Z * Z)) : Prop :=
  NoDup mines ∧ ∀ p, p ∈ mines → p ∈ cells cols lines.

(** ** Outcomes

    A call either returns, raises [KeyError] (a dictionary was read at a
    missing key), or the model ran out of recursion budget.  The board that
    the call leaves behind is kept in the first two cases. *)

Inductive outcome : Type :=
  | Done (b : MineSweeperBoard)
  | KeyError (b : MineSweeperBoard)
  | OutOfFuel.

Definition board_of (o : outcome) : option MineSweeperBoard :=
  match o with Done b | KeyError b => Some b | OutOfFuel => None end.

(** ** [get_neighbors] *)

Definition neighbors_offsets : list (Z * Z) :=
  [ (-1, -1); (-1, 0); (-1, 1);
    ( 0, -1);          ( 0, 1);
    ( 1, -1); ( 1, 0); ( 1, 1) ].

Definition in_bounds (b : MineSweeperBoard) (p : Z * Z) : bool :=
  (0 <=? p.1) && (p.1 <? cols b) && (0 <=? p.2) && (p.2 <? lines b).

Definition get_neighbors (b : MineSweeperBoard) (position : Z * Z) : list (Z * Z) :=
  let '(x, y) := position in
  omap (λ '(dy, dx),
          let x2 := x + dx in
          let y2 := y + dy in
          if in_bounds b (x2, y2) then Some (x2, y2) else None)
       neighbors_offsets.

(** ** [flag] *)

Definition flag (b : MineSweeperBoard) (position : Z * Z) (state : Z) : outcome :=
  match grid b !! position with
  | None => KeyError b
  | Some cur =>
      let cur' := if Z.land state _FLAGGED =? _FLAGGED
                  then Z.lxor cur _FLAGGED
                  else Z.lor cur _FLAGGED in
      let b := set_grid (<[position := cur']> (grid b)) b in
      if state =? _MINE then Done (set_mines_left (mines_left b - 1) b)
      else match grid b !! position with
           | None => KeyError b
           | Some now =>
               if now =? _MINE then Done (set_mines_left (mines_left b + 1) b)
               else Done b
           end
  end.

(** ** [reveal]

    [for neighbor in neighbors: self.action(neighbor)]: the loop stops at
    the first call that does not return. *)

Fixpoint for_each (act : MineSweeperBoard → Z * Z → outcome)
    (b : MineSweeperBoard) (neighbors : list (Z * Z)) : outcome :=
  match neighbors with
  | [] => Done b
  | neighbor :: rest =>
      match act b neighbor with
      | Done b' => for_each act b' rest
      | o => o
      end
  end.

(** [sum(self[pos] & _MINE == _MINE for pos in neighbors)]; [None] when a
    neighbor is not a key of the grid. *)
Definition count_mines (g : gmap (Z * Z) Z) (neighbors : list (Z * Z)) : option Z :=
  states ← mapM (λ p, g !! p) neighbors;
  Some (Z.of_nat (length (filter (λ s, Z.land s _MINE = _MINE) states))).

(** The recursive call [self.action(neighbor)] is the parameter [act]. *)
Definition reveal (act : MineSweeperBoard → Z * Z → outcome)
    (b : MineSweeperBoard) (position : Z * Z) (state : Z) : outcome :=
  let b := set_last_clicked (Some state) b in
  match grid b !! position with
  | None => KeyError b
  | Some cur =>
      let b := set_grid (<[position := Z.lor cur _OPEN]> (grid b)) b in
      if state =? _MINE then Done b
      else
        let b := set_cells_revealed (cells_revealed b + 1) b in
        let neighbors := get_neighbors b position in
        match count_mines (grid b) neighbors with
        | None => KeyError b
        | Some mines_nearby =>
            let b := set_hints (<[position := mines_nearby]> (hints b)) b in
            if mines_nearby =? 0 then for_each act b neighbors else Done b
        end
  end.

(** ** [action]

    [action] and [reveal] call each other; [fuel] bounds the depth of the
    calls of [action]. *)

Fixpoint action (fuel : nat) (b : MineSweeperBoard) (position : Z * Z)
    (flag_arg : bool) : outcome :=
  match fuel with
  | O => OutOfFuel
  | S fuel' =>
      match grid b !! position with
      | None => KeyError b
      | Some state =>
          if state =? _OPEN then Done b
          else if flag_arg then flag b position state
          else if Z.land state _FLAGGED =? _FLAGGED then Done b
          else reveal (λ b' neighbor, action fuel' b' neighbor false) b position state
      end
  end.

(** ** [open_mines] *)

Definition open_mines (b : MineSweeperBoard) : MineSweeperBoard :=
  set_grid
    (foldl (λ g '(position, state),
              if Z.land state _MINE =? _MINE
              then <[position := _OPEN_MINE]> g else g)
           (grid b) (map_to_list (grid b)))
    b.

(** ** Well-formed boards

    The data model: a cell state is a bit set over [_MINE], [_FLAGGED] and
    [_OPEN], and every position of the [cols] x [lines] rectangle is a key
    of the grid. *)

Definition states_valid (b : MineSweeperBoard) : Prop :=
  ∀ p s, grid b !! p = Some s → 0 ≤ s < 8.

Definition complete (b : MineSweeperBoard) : Prop :=
  ∀ p, in_bounds b p = true → is_Some (grid b !! p).

(** The closed, unflagged, mine-free cells: the only ones a cascade opens. *)
Definition safe_set (b : MineSweeperBoard) : gset (Z * Z) :=
  dom (filter (λ kv, kv.2 = _SAFE) (grid b)).

(** The hint a reveal of [c] would store is zero. *)
Definition zero_hint (b : MineSweeperBoard) (c : Z * Z) : Prop :=
  count_mines (grid b) (get_neighbors b c) = Some 0.

#[global] Instance zero_hint_dec b c : Decision (zero_hint b c) :=
  decide (count_mines (grid b) (get_neighbors b c) = Some 0).

(** One step of the cascade: from a closed, unflagged cell with hint zero to
    a neighbor that is closed and unflagged. *)
Definition cascade_step (b : MineSweeperBoard) (c n : Z * Z) : Prop :=
  grid b !! c = Some _SAFE ∧ zero_hint b c ∧
  n ∈ get_neighbors b c ∧ grid b !! n = Some _SAFE.

Definition cascade_reach (b : MineSweeperBoard) (p q : Z * Z) : Prop :=
  grid b !! p = Some _SAFE ∧ rtc (cascade_step b) p q.

(** The zero-hint region that a click on [p] opens: the closed, unflagged
    zero-hint cells linked to [p] through such cells; and its ring: the
    closed, unflagged cells with a hint that border the region. *)
Definition closed_zero (b : MineSweeperBoard) (c : Z * Z) : Prop :=
  grid b !! c = Some _SAFE ∧ zero_hint b c.

Definition zero_link (b : MineSweeperBoard) (c n : Z * Z) : Prop :=
  closed_zero b c ∧ n ∈ get_neighbors b c ∧ closed_zero b n.

Definition zero_region (b : MineSweeperBoard) (p c : Z * Z) : Prop :=
  closed_zero b p ∧ rtc (zero_link b) p c.

Definition zero_ring (b : MineSweeperBoard) (p q : Z * Z) : Prop :=
  grid b !! q = Some _SAFE ∧ ¬ zero_hint b q ∧
  ∃ c, zero_region b p c ∧ q ∈ get_neighbors b c.

(** The only change a cascade makes to the grid: closed, unflagged,
    mine-free cells become open. *)
Definition grid_step (b b' : MineSweeperBoard) : Prop :=
  cols b' = cols b ∧ lines b' = lines b ∧
  ∀ q, grid b' !! q = grid b !! q ∨
       (grid b !! q = Some _SAFE ∧ grid b' !! q = Some _OPEN).

(** What a run of calls [action(n)] for [n] in [ns] does to a board when
    none of the cells [ns] carries a mine. *)
Record cascade_rel (b : MineSweeperBoard) (ns : list (Z * Z))
    (b' : MineSweeperBoard) : Prop := mk_cascade_rel {
  cr_cols : cols b' = cols b;
  cr_lines : lines b' = lines b;
  cr_mines_left : mines_left b' = mines_left b;
  cr_safe_cells : safe_cells b' = safe_cells b;
  cr_frame : ∀ q, grid b' !! q = grid b !! q ∨
                  (grid b !! q = Some _SAFE ∧ grid b' !! q = Some _OPEN);
  cr_done : ∀ n, n ∈ ns → grid b' !! n ≠ Some _SAFE;
  cr_closed : ∀ c n, grid b !! c = Some _SAFE → grid b' !! c = Some _OPEN →
                     zero_hint b c → n ∈ get_neighbors b c →
                     grid b' !! n ≠ Some _SAFE;
  cr_sound : ∀ q, grid b !! q = Some _SAFE → grid b' !! q = Some _OPEN →
                  ∃ n, n ∈ ns ∧ cascade_reach b n q;
  cr_last : last_clicked b' = last_clicked b ∨ last_clicked b' = Some _SAFE;
  cr_last_open : ∀ q, grid b !! q = Some _SAFE → grid b' !! q = Some _OPEN →
                      last_clicked b' = Some _SAFE
}.

(** The outcome of such a run: it does not run out of budget, and it raises
    only on a board with a missing position. *)
Definition cascade_ok (b : MineSweeperBoard) (ns : list (Z * Z)) (o : outcome) : Prop :=
  match o with
  | Done b' => cascade_rel b ns b'
  | KeyError _ => ¬ complete b
  | OutOfFuel => False
  end.

(** ** The zero-hint region as the specification words it

    The connected region of zero-hint cells around [p], whatever the flags
    on its cells. *)
Inductive spec_zero_region (b : MineSweeperBoard) (p : Z * Z) : Z * Z → Prop :=
  | szr_start : zero_hint b p → spec_zero_region b p p
  | szr_step c n :
      spec_zero_region b p c → n ∈ get_neighbors b c → zero_hint b n →
      spec_zero_region b p n.

(** ** Boards reachable from a construction *)

Inductive reachable (cols lines : Z) (mines : list (Z * Z)) : MineSweeperBoard → Prop :=
  | reachable_random : reachable cols lines mines (random cols lines mines)
  | reachable_action b fuel p flag_arg b' :
      reachable cols lines mines b →
      board_of (action fuel b p flag_arg) = Some b' →
      reachable cols lines mines b'
  | reachable_flag b p state b' :
      reachable cols lines mines b →
      board_of (flag b p state) = Some b' →
      reachable cols lines mines b'
  | reachable_reveal b fuel p state b' :
      reachable cols lines mines b →
      board_of (reveal (λ b0 n, action fuel b0 n false) b p state) = Some b' →
      reachable cols lines mines b'
  | reachable_open_mines b :
      reachable cols lines mines b →
      reachable cols lines mines (open_mines b).

(** ** Concrete boards *)

(** 3 x 3, one mine in the centre. *)
Definition board_3x3 : MineSweeperBoard := random 3 3 [(1, 1)].

(** 2 x 2, one mine at the origin. *)
Definition board_2x2 : MineSweeperBoard := random 2 2 [(0, 0)].

(** 3 x 1 without mines. *)
Definition board_3x1 : MineSweeperBoard := random 3 1 [].

(** A sequence of clicks [(position, flag)], each run to completion. *)
Fixpoint play (fuel : nat) (b : MineSweeperBoard) (clicks : list ((Z * Z) * bool)) : outcome :=
  match clicks with
  | [] => Done b
  | (p, f) :: rest =>
      match action fuel b p f with
      | Done b' => play fuel b' rest
      | o => o
      end
  end.

(** ** Sets of cells by state *)

Definition cells_in_state (s : Z) (b : MineSweeperBoard) : gset (Z * Z) :=
  dom (filter (λ kv, kv.2 = s) (grid b)).

Definition mined_cells (b : MineSweeperBoard) : gset (Z * Z) :=
  dom (filter (λ kv, Z.land kv.2 _MINE = _MINE) (grid b)).

(** The loop body of [reveal] replaced by a call that returns at once: what
    [reveal] itself writes before it visits the neighbors. *)
Definition skip (b : MineSweeperBoard) (n : Z * Z) : outcome := Done b.

(** Boards reached from a construction by clicks alone. *)
Inductive played (cols lines : Z) (mines : list (Z * Z)) : MineSweeperBoard → Prop :=
  | played_random : played cols lines mines (random cols lines mines)
  | played_action b fuel p flag_arg b' :
      played cols lines mines b →
      board_of (action fuel b p flag_arg) = Some b' →
      played cols lines mines b'.

(** The same, where every click returns and no reveal click lands on a mine
    that is already open and unflagged. *)
Inductive played_fair (cols lines : Z) (mines : list (Z * Z)) : MineSweeperBoard → Prop :=
  | played_fair_random : played_fair cols lines mines (random cols lines mines)
  | played_fair_action b fuel p flag_arg b' :
      played_fair cols lines mines b →
      (flag_arg = true ∨ grid b !! p ≠ Some _OPEN_MINE) →
      action fuel b p flag_arg = Done b' →
      played_fair cols lines mines b'.

(** ** Relations between a board and a later one *)

(** Mine bits stay, open bits are not cleared, keys stay, and
    [cells_revealed] does not go down. *)
Definition bits_kept (b b' : MineSweeperBoard) : Prop :=
  cols b' = cols b ∧ lines b' = lines b ∧ safe_cells b' = safe_cells b ∧
  cells_revealed b ≤ cells_revealed b' ∧
  (∀ q, grid b !! q = None → grid b' !! q = None) ∧
  (∀ q s, grid b !! q = Some s →
          ∃ s', grid b' !! q = Some s' ∧
                Z.testbit s' 0 = Z.testbit s 0 ∧
                (Z.testbit s 2 = true → Z.testbit s' 2 = true)).

(** Every stored hint is the number of mined neighbors of its cell, and
    its cell has the open bit. *)
Definition hints_ok (b : MineSweeperBoard) : Prop :=
  ∀ q h, hints b !! q = Some h →
         count_mines (grid b) (get_neighbors b q) = Some h ∧
         ∃ s, grid b !! q = Some s ∧ Z.land s _OPEN = _OPEN.

(** What a reveal click may change: unflagged cells gain the open bit. *)
Definition reveal_frame (b b' : MineSweeperBoard) : Prop :=
  cols b' = cols b ∧ lines b' = lines b ∧
  mines_left b' = mines_left b ∧ safe_cells b' = safe_cells b ∧
  ∀ q, grid b' !! q = grid b !! q ∨
       ∃ s, grid b !! q = Some s ∧ Z.land s _FLAGGED ≠ _FLAGGED ∧
            grid b' !! q = Some (Z.lor s _OPEN).

(** ** The game object of [pygame_sweeper.py]

    The fields of [MineSweeperGame] that carry game state; the window, the
    clock and the font are left out. *)

Record MineSweeperGame : Type := mkGame {
  game_cols : Z;
  game_lines : Z;
  game_mines : Z;
  playing : bool;
  won : bool;
  board : MineSweeperBoard
}.

(** [update(self)] *)
Definition update (g : MineSweeperGame) : MineSweeperGame :=
  let won' := (mines_left (board g) <=? 0)
              || (cells_revealed (board g) =? safe_cells (board g)) in
  let lost := bool_decide (last_clicked (board g) = Some _MINE) in
  if won' || lost
  then mkGame (game_cols g) (game_lines g) (game_mines g) false won'
              (open_mines (set_last_clicked None (board g)))
  else mkGame (game_cols g) (game_lines g) (game_mines g) (playing g) won'
              (board g).

(** [from_custom]: the table of maxima and the test on the user's values,
    [any(maxv < maxv - uv < 0 for maxv, uv in zip(maximum_values, user_values))];
    [true] stands for the [ValueError] branch. *)
Definition maximum_values : list Z := [30; 24; 667].

Definition custom_input_rejected (user_values : list Z) : bool :=
  existsb (λ '(maxv, uv), (maxv <? maxv - uv) && (maxv - uv <? 0))
          (zip maximum_values user_values).

(** * Properties *)

(** ** Bits of a cell state *)

Lemma land_pow2_testbit (s k : Z) :
  0 ≤ k → Z.land s (2 ^ k) = 2 ^ k ↔ Z.testbit s k = true.
Proof.
  intros Hk. split.
  - intros H.
    assert (Ht : Z.testbit (Z.land s (2 ^ k)) k = true).
    { rewrite H, Z.pow2_bits_eqb by done. apply Z.eqb_refl. }
    rewrite Z.land_spec in Ht. apply andb_true_iff in Ht. tauto.
  - intros H. apply Z.bits_inj'. intros n Hn.
    rewrite Z.land_spec, Z.pow2_bits_eqb by done.
    destruct (Z.eqb_spec k n) as [->|]; [rewrite H|rewrite andb_false_r]; done.
Qed.

Lemma is_mine_testbit s : Z.land s _MINE = _MINE ↔ Z.testbit s 0 = true.
Proof. apply (land_pow2_testbit s 0). lia. Qed.

Lemma is_flagged_testbit s : Z.land s _FLAGGED = _FLAGGED ↔ Z.testbit s 1 = true.
Proof. apply (land_pow2_testbit s 1). lia. Qed.

Lemma is_open_testbit s : Z.land s _OPEN = _OPEN ↔ Z.testbit s 2 = true.
Proof. apply (land_pow2_testbit s 2). lia. Qed.

Lemma testbit_lor_FLAGGED s n :
  0 ≤ n → Z.testbit (Z.lor s _FLAGGED) n = Z.testbit s n || (n =? 1).
Proof.
  intros Hn. rewrite Z.lor_spec. change _FLAGGED with (2 ^ 1).
  rewrite Z.pow2_bits_eqb, (Z.eqb_sym 1 n) by lia. done.
Qed.

Lemma testbit_lxor_FLAGGED s n :
  0 ≤ n → Z.testbit (Z.lxor s _FLAGGED) n = xorb (Z.testbit s n) (n =? 1).
Proof.
  intros Hn. rewrite Z.lxor_spec. change _FLAGGED with (2 ^ 1).
  rewrite Z.pow2_bits_eqb, (Z.eqb_sym 1 n) by lia. done.
Qed.

Lemma lor_lxor_FLAGGED s :
  Z.testbit s 1 = false → Z.lor s _FLAGGED = Z.lxor s _FLAGGED.
Proof.
  intros H. apply Z.bits_inj'. intros n Hn.
  rewrite testbit_lor_FLAGGED, testbit_lxor_FLAGGED by done.
  destruct (Z.eqb_spec n 1) as [->|]; [rewrite H; done|].
  by rewrite orb_false_r, xorb_false_r.
Qed.

Lemma lxor_FLAGGED_twice s : Z.lxor (Z.lxor s _FLAGGED) _FLAGGED = s.
Proof. by rewrite Z.lxor_assoc, Z.lxor_nilpotent, Z.lxor_0_r. Qed.

(** The new state of a cell after a flag toggle, as [flag] computes it from
    the state [action] read. *)
Lemma flag_new_state s :
  (if Z.land s _FLAGGED =? _FLAGGED then Z.lxor s _FLAGGED else Z.lor s _FLAGGED)
  = Z.lxor s _FLAGGED.
Proof.
  destruct (Z.eqb_spec (Z.land s _FLAGGED) _FLAGGED) as [|Hn]; [done|].
  apply lor_lxor_FLAGGED. rewrite is_flagged_testbit in Hn.
  by destruct (Z.testbit s 1).
Qed.

Lemma toggled_mine s :
  Z.testbit (Z.lxor s _FLAGGED) 0 = Z.testbit s 0.
Proof. rewrite testbit_lxor_FLAGGED by lia. apply xorb_false_r. Qed.

Lemma toggled_is_MINE s : Z.lxor s _FLAGGED = _MINE ↔ s = 3.
Proof.
  split; [intros H|intros ->; done].
  rewrite <- (lxor_FLAGGED_twice s), H. done.
Qed.

(** ** Records *)

Lemma board_eq b1 b2 :
  grid b1 = grid b2 → mines_left b1 = mines_left b2 → hints b1 = hints b2 →
  cols b1 = cols b2 → lines b1 = lines b2 → last_clicked b1 = last_clicked b2 →
  cells_revealed b1 = cells_revealed b2 → safe_cells b1 = safe_cells b2 →
  b1 = b2.
Proof. destruct b1, b2; simpl; intros; by subst. Qed.

(** ** [flag] through [action] *)

(** What [action(p, flag=True)] does on a cell that is not in state [_OPEN]. *)
Lemma action_flag_eq fuel b p s :
  grid b !! p = Some s → s ≠ _OPEN →
  action (S fuel) b p true =
    Done (set_mines_left
            (if s =? _MINE then mines_left b - 1
             else if s =? 3 then mines_left b + 1 else mines_left b)
            (set_grid (<[p := Z.lxor s _FLAGGED]> (grid b)) b)).
Proof.
  intros Hp Hs. simpl. rewrite Hp.
  destruct (Z.eqb_spec s _OPEN) as [|_]; [done|].
  unfold flag. rewrite Hp, flag_new_state. simpl. rewrite lookup_insert_eq.
  destruct (Z.eqb_spec s _MINE) as [->|Hm]; [done|].
  destruct (Z.eqb_spec (Z.lxor s _FLAGGED) _MINE) as [H3|H3];
    rewrite toggled_is_MINE in H3.
  - subst s. done.
  - destruct (Z.eqb_spec s 3); [done|]. by destruct b.
Qed.

(** ** Revealing a closed mine *)

(** C6: on a cell whose state is exactly [_MINE], [action(p)] sets the state
    to [_MINE | _OPEN], records [_MINE] in [last_clicked], and changes
    nothing else: no other cell, no hint, no counter. *)
Theorem reveal_mine (fuel : nat) (b : MineSweeperBoard) (p : Z * Z) :
  grid b !! p = Some _MINE →
  ∃ b', action (S fuel) b p false = Done b' ∧
        grid b' = <[p := _OPEN_MINE]> (grid b) ∧
        grid b' !! p = Some (Z.lor _MINE _OPEN) ∧
        (∀ q, q ≠ p → grid b' !! q = grid b !! q) ∧
        last_clicked b' = Some _MINE ∧
        cells_revealed b' = cells_revealed b ∧
        hints b' = hints b ∧
        mines_left b' = mines_left b ∧
        cols b' = cols b ∧ lines b' = lines b ∧ safe_cells b' = safe_cells b.
Proof.
  intros Hp. eexists. split.
  - simpl. rewrite Hp. simpl. unfold reveal. simpl. rewrite Hp. simpl. reflexivity.
  - simpl. split_and!; try done.
    + apply lookup_insert_eq.
    + intros q Hq. by apply lookup_insert_ne.
Qed.

Lemma reveal_mine_witness :
  ∃ b', action 1 board_2x2 (0, 0) false = Done b' ∧
        grid b' !! (0, 0) = Some 5 ∧ last_clicked b' = Some 1 ∧
        cells_revealed b' = 0 ∧ hints b' = ∅.
Proof.
  destruct (reveal_mine 0 board_2x2 (0, 0)) as (b' & H1 & H2 & H3 & H4 & H5 & H6 & H7 & _).
  - vm_compute. reflexivity.
  - exists b'. rewrite H1, H3, H5, H6, H7. repeat split.
Defined.

(** ** Flag, then unflag *)

(** C7: on a closed mined cell two flag clicks in a row give back the board
    as it was, so the cell state and [mines_left] are restored (the first
    click toggles the flag bit); on a cell without a mine one flag click
    leaves [mines_left] alone. *)
Theorem flag_unflag_roundtrip (f1 f2 : nat) (b : MineSweeperBoard) (p : Z * Z) (s : Z) :
  grid b !! p = Some s →
  (Z.land s _MINE = _MINE → Z.land s _OPEN ≠ _OPEN →
   ∃ b1 b2, action (S f1) b p true = Done b1 ∧
            action (S f2) b1 p true = Done b2 ∧
            grid b1 !! p = Some (Z.lxor s _FLAGGED) ∧
            grid b2 !! p = Some s ∧ mines_left b2 = mines_left b ∧ b2 = b) ∧
  (Z.land s _MINE ≠ _MINE →
   ∃ b1, action (S f1) b p true = Done b1 ∧ mines_left b1 = mines_left b).
Proof.
  intros Hp. split.
  - intros Hm Ho. rewrite is_mine_testbit in Hm.
    assert (Hs : s ≠ _OPEN) by (intros ->; done).
    assert (Hs' : Z.lxor s _FLAGGED ≠ _OPEN).
    { intros E. pose proof (toggled_mine s) as T. rewrite E, Hm in T. done. }
    rewrite (action_flag_eq f1 b p s Hp Hs).
    eexists _, b. split; [done|].
    split_and!; try done; [|apply lookup_insert_eq].
    erewrite action_flag_eq; [|apply lookup_insert_eq|done].
    f_equal. apply board_eq; simpl; try done.
    + by rewrite insert_insert_eq, lxor_FLAGGED_twice, insert_id.
    + destruct (Z.eqb_spec s _MINE) as [->|N1]; [simpl; lia|].
      destruct (Z.eqb_spec s 3) as [->|N3]; [simpl; lia|].
      destruct (Z.eqb_spec (Z.lxor s _FLAGGED) _MINE) as [E|_].
      { apply toggled_is_MINE in E. done. }
      destruct (Z.eqb_spec (Z.lxor s _FLAGGED) 3) as [E|_]; [|done].
      exfalso. apply N1. by rewrite <- (lxor_FLAGGED_twice s), E.
  - intros Hm. destruct (decide (s = _OPEN)) as [->|Hs].
    + exists b. split; [|done]. simpl. by rewrite Hp.
    + rewrite (action_flag_eq f1 b p s Hp Hs). eexists. split; [done|]. simpl.
      destruct (Z.eqb_spec s _MINE) as [->|]; [done|].
      destruct (Z.eqb_spec s 3) as [->|]; done.
Qed.

Lemma flag_unflag_roundtrip_witness :
  (∃ b1, action 1 board_2x2 (0, 0) true = Done b1 ∧
         action 1 b1 (0, 0) true = Done board_2x2 ∧
         mines_left b1 = 0) ∧
  (∃ b1, action 1 board_2x2 (1, 1) true = Done b1 ∧ mines_left b1 = 1).
Proof.
  split.
  - destruct (flag_unflag_roundtrip 0 0 board_2x2 (0, 0) 1) as [H _];
      [vm_compute; reflexivity|].
    destruct H as (b1 & b2 & H1 & H2 & _ & _ & _ & ->);
      [vm_compute; reflexivity | vm_compute; discriminate |].
    exists b1. split_and!; try done.
    vm_compute in H1. injection H1 as <-. vm_compute. reflexivity.
  - destruct (flag_unflag_roundtrip 0 0 board_2x2 (1, 1) 0) as [_ H];
      [vm_compute; reflexivity|].
    destruct H as (b1 & H1 & H2); [vm_compute; discriminate|].
    exists b1. split; [done|]. rewrite H2. vm_compute. reflexivity.
Defined.

(** ** Clicks on open cells *)

(** A cell whose state is exactly [_OPEN] is left alone, with or without
    the flag argument. *)
Lemma action_open_noop fuel b p flag_arg :
  grid b !! p = Some _OPEN → action (S fuel) b p flag_arg = Done b.
Proof. intros Hp. simpl. by rewrite Hp. Qed.

(** C1 at a revealed mine: on the 2 x 2 board with its mine at the origin,
    the first click reveals the mine (state [_MINE | _OPEN], which has the
    [_OPEN] bit); a second click on it is not a no-op: it counts the mine as
    a revealed safe cell, stores a hint for it and opens the three other
    cells, and a flag click puts the flag bit on the open mine. *)
Theorem open_mine_click_not_noop :
  ∃ b1 b2 b3,
    action 1 board_2x2 (0, 0) false = Done b1 ∧
    grid b1 !! (0, 0) = Some _OPEN_MINE ∧
    Z.land _OPEN_MINE _OPEN = _OPEN ∧
    action 2 b1 (0, 0) false = Done b2 ∧
    cells_revealed b1 = 0 ∧ cells_revealed b2 = 4 ∧
    hints b1 = ∅ ∧
    hints b2 = {[ (0, 0) := 0; (1, 0) := 1; (0, 1) := 1; (1, 1) := 1 ]} ∧
    last_clicked b2 = Some _SAFE ∧
    grid b2 !! (1, 1) = Some _OPEN ∧
    action 1 b1 (0, 0) true = Done b3 ∧
    grid b3 !! (0, 0) = Some 7.
Proof.
  eexists _, _, _.
  split; [vm_compute; reflexivity|].
  split; [vm_compute; reflexivity|].
  split; [reflexivity|].
  split; [vm_compute; reflexivity|].
  split_and!; vm_compute; reflexivity.
Qed.

(** C2 on the same board: two clicks on the mine, and [cells_revealed]
    (4) is above [safe_cells] (3); every further click on the open mine
    adds one more. *)
Theorem cells_revealed_exceeds_safe_cells :
  ∃ b2 b3,
    play 2 board_2x2 [((0, 0), false); ((0, 0), false)] = Done b2 ∧
    reachable 2 2 [(0, 0)] b2 ∧
    safe_cells b2 = 3 ∧ cells_revealed b2 = 4 ∧
    action 2 b2 (0, 0) false = Done b3 ∧
    grid b3 = grid b2 ∧ cells_revealed b3 = 5.
Proof.
  eexists _, _.
  split; [vm_compute; reflexivity|].
  split.
  { eapply (reachable_action _ _ _ _ 2 (0, 0) false).
    - eapply (reachable_action _ _ _ _ 1 (0, 0) false); [apply reachable_random|].
      vm_compute. reflexivity.
    - vm_compute. reflexivity. }
  split_and!; vm_compute; reflexivity.
Qed.

(** C3 on the same board: after the two clicks [hints] has an entry for the
    mined cell (0, 0), and a third click writes that entry again. *)
Theorem hint_stored_for_mine :
  ∃ b2 b3,
    play 2 board_2x2 [((0, 0), false); ((0, 0), false)] = Done b2 ∧
    grid b2 !! (0, 0) = Some _OPEN_MINE ∧
    Z.land _OPEN_MINE _MINE = _MINE ∧
    hints b2 !! (0, 0) = Some 0 ∧
    count_mines (grid b2) (get_neighbors b2 (0, 0)) = Some 0 ∧
    action 2 b2 (0, 0) false = Done b3 ∧
    hints b3 = <[(0, 0) := 0]> (hints b2) ∧
    cells_revealed b3 = cells_revealed b2 + 1.
Proof.
  eexists _, _.
  split; [vm_compute; reflexivity|].
  split_and!; vm_compute; reflexivity.
Qed.

(** ** The 3 x 3 scenario *)

(** The first click of the scenario, for any budget. *)
Lemma board_3x3_first_click fuel :
  action (S fuel) board_3x3 (0, 0) false =
    Done (set_hints {[ (0, 0) := 1 ]}
            (set_cells_revealed 1
               (set_grid (<[(0, 0) := _OPEN]> (grid board_3x3))
                  (set_last_clicked (Some _SAFE) board_3x3)))).
Proof. vm_compute. reflexivity. Qed.

Lemma board_3x3_one_click_counterexample :
  ¬ ∃ fuel b',
      action fuel board_3x3 (0, 0) false = Done b' ∧
      Forall (λ q, ∃ s, grid b' !! q = Some s ∧ Z.land s _OPEN = _OPEN)
             [(0,0); (1,0); (2,0); (0,1); (2,1); (0,2); (1,2); (2,2)] ∧
      hints b' = {[ (0,0) := 1; (1,0) := 1; (2,0) := 1; (0,1) := 1;
                    (2,1) := 1; (0,2) := 1; (1,2) := 1; (2,2) := 1 ]}.
Proof.
  intros (fuel & b' & Hact & Hopen & _).
  destruct fuel as [|fuel]; [discriminate|].
  rewrite board_3x3_first_click in Hact.
  assert (Hg : grid b' !! (2, 2) = Some _SAFE).
  { injection Hact as <-. vm_compute. reflexivity. }
  clear Hact. rewrite Forall_forall in Hopen.
  destruct (Hopen (2, 2)) as (s & Hs & Ho).
  { apply list_elem_of_In. simpl. tauto. }
  rewrite Hg in Hs. injection Hs as <-. discriminate Ho.
Qed.

(** C4, amended: one click on (0, 0) opens that cell only, with hint 1 (the
    hint is not zero, so nothing cascades); clicking each of the eight
    mine-free cells opens all eight, with the hints of the scenario. *)
Theorem board_3x3_scenario :
  (∀ fuel, ∃ b1,
      action (S fuel) board_3x3 (0, 0) false = Done b1 ∧
      grid b1 = <[(0, 0) := _OPEN]> (grid board_3x3) ∧
      hints b1 = {[ (0, 0) := 1 ]} ∧
      cells_revealed b1 = 1 ∧ last_clicked b1 = Some _SAFE) ∧
  (∃ b8,
      play 1 board_3x3
           [((0,0), false); ((1,0), false); ((2,0), false); ((0,1), false);
            ((2,1), false); ((0,2), false); ((1,2), false); ((2,2), false)]
      = Done b8 ∧
      Forall (λ q, grid b8 !! q = Some _OPEN)
             [(0,0); (1,0); (2,0); (0,1); (2,1); (0,2); (1,2); (2,2)] ∧
      grid b8 !! (1, 1) = Some _MINE ∧
      hints b8 = {[ (0,0) := 1; (1,0) := 1; (2,0) := 1; (0,1) := 1;
                    (2,1) := 1; (0,2) := 1; (1,2) := 1; (2,2) := 1 ]} ∧
      cells_revealed b8 = safe_cells b8).
Proof.
  split.
  - intros fuel. eexists. split; [vm_compute; reflexivity|].
    split_and!; vm_compute; reflexivity.
  - eexists. split; [vm_compute; reflexivity|].
    split; [repeat constructor|split_and!]; vm_compute; reflexivity.
Qed.

(** ** The key set of the grid *)

Lemma flag_dom b p s b' :
  board_of (flag b p s) = Some b' → dom (grid b') = dom (grid b).
Proof.
  unfold flag. destruct (grid b !! p) as [cur|] eqn:Hp; [|by intros [= <-]].
  simpl. rewrite lookup_insert_eq.
  repeat case_match; intros [= <-]; simpl; by apply dom_insert_lookup_L.
Qed.

Lemma for_each_dom act b ns b' :
  (∀ b0 n b1, board_of (act b0 n) = Some b1 → dom (grid b1) = dom (grid b0)) →
  board_of (for_each act b ns) = Some b' → dom (grid b') = dom (grid b).
Proof.
  intros Hact. revert b. induction ns as [|n ns IH]; intros b; simpl.
  - by intros [= <-].
  - destruct (act b n) as [b1|b1|] eqn:Hn; simpl; [| |done].
    + intros H. rewrite (IH _ H). apply (Hact b n). by rewrite Hn.
    + intros [= <-]. apply (Hact b n). by rewrite Hn.
Qed.

Lemma reveal_dom act b p s b' :
  (∀ b0 n b1, board_of (act b0 n) = Some b1 → dom (grid b1) = dom (grid b0)) →
  board_of (reveal act b p s) = Some b' → dom (grid b') = dom (grid b).
Proof.
  intros Hact. unfold reveal. simpl.
  destruct (grid b !! p) as [cur|] eqn:Hp; [|by intros [= <-]].
  assert (Hd : dom (<[p := Z.lor cur _OPEN]> (grid b)) = dom (grid b))
    by by apply dom_insert_lookup_L.
  destruct (s =? _MINE); [by intros [= <-]|].
  destruct (count_mines _ _) as [m|]; [|by intros [= <-]].
  destruct (m =? 0); [|by intros [= <-]].
  intros H. apply for_each_dom in H; [|done]. by rewrite H.
Qed.

Lemma action_dom fuel b p flag_arg b' :
  board_of (action fuel b p flag_arg) = Some b' → dom (grid b') = dom (grid b).
Proof.
  revert b p flag_arg b'. induction fuel as [|fuel IH]; intros b p fl b'; [done|].
  simpl. destruct (grid b !! p) as [s|]; [|by intros [= <-]].
  destruct (s =? _OPEN); [by intros [= <-]|].
  destruct fl; [apply flag_dom|].
  destruct (_ =? _FLAGGED); [by intros [= <-]|].
  apply reveal_dom. intros b0 n b1. apply IH.
Qed.

Lemma open_mines_loop_dom (l : list (Z * Z * Z)) (g : gmap (Z * Z) Z) :
  (∀ p s, (p, s) ∈ l → p ∈ dom g) →
  dom (foldl (λ g '(position, state),
                if Z.land state _MINE =? _MINE
                then <[position := _OPEN_MINE]> g else g) g l) = dom g.
Proof.
  revert g. induction l as [|[p s] l IHl]; intros g Hin; [done|].
  simpl. rewrite IHl.
  - destruct (_ =? _MINE); [|done]. apply dom_insert_lookup_L, elem_of_dom.
    eapply Hin. left.
  - intros q t Hq. assert (q ∈ dom g) by (eapply Hin; right; done).
    destruct (_ =? _MINE); [|done]. rewrite dom_insert_L, elem_of_union. by right.
Qed.

Lemma open_mines_dom b : dom (grid (open_mines b)) = dom (grid b).
Proof.
  unfold open_mines. simpl. apply open_mines_loop_dom.
  intros p s H. apply elem_of_map_to_list in H. by eapply elem_of_dom_2.
Qed.

Lemma cells_NoDup cols lines : NoDup (cells cols lines).
Proof.
  unfold cells, range. apply NoDup_bind.
  - intros x1 x2 q _ _ H1 H2.
    apply list_elem_of_bind in H1 as (y1 & H1 & _), H2 as (y2 & H2 & _).
    apply list_elem_of_singleton in H1, H2. congruence.
  - intros x _. apply NoDup_bind; [|intros; apply NoDup_singleton|apply NoDup_seqZ].
    intros y1 y2 q _ _ H1 H2. apply list_elem_of_singleton in H1, H2. congruence.
  - apply NoDup_seqZ.
Qed.

Lemma length_bind_const {A B} (f : A → list B) (l : list A) (k : nat) :
  (∀ x, length (f x) = k) → length (l ≫= f) = (length l * k)%nat.
Proof.
  intros Hf. induction l as [|x l IH]; [done|].
  rewrite bind_cons, length_app, Hf, IH. done.
Qed.

Lemma cells_length cols lines :
  length (cells cols lines) = (Z.to_nat cols * Z.to_nat lines)%nat.
Proof.
  unfold cells, range.
  rewrite (length_bind_const _ _ (Z.to_nat lines)), length_seqZ; [done|].
  intros x. rewrite (length_bind_const _ _ 1%nat), length_seqZ; [lia|done].
Qed.

Lemma elem_of_cells cols lines p :
  p ∈ cells cols lines ↔ 0 ≤ p.1 < cols ∧ 0 ≤ p.2 < lines.
Proof.
  unfold cells, range. rewrite list_elem_of_bind. split.
  - intros (x & H & Hx). apply list_elem_of_bind in H as (y & H & Hy).
    apply list_elem_of_singleton in H as ->. simpl.
    apply elem_of_seqZ in Hx, Hy. lia.
  - intros [Hx Hy]. exists p.1. split; [|apply elem_of_seqZ; lia].
    apply list_elem_of_bind. exists p.2. split; [|apply elem_of_seqZ; lia].
    destruct p. simpl. apply list_elem_of_singleton. done.
Qed.

Lemma random_dom cols lines mines :
  dom (grid (random cols lines mines)) = list_to_set (cells cols lines).
Proof.
  unfold random. simpl. rewrite dom_list_to_map_L. f_equal.
  rewrite <- list_fmap_compose. apply list_fmap_id.
Qed.

Lemma reachable_dom cols lines mines b :
  reachable cols lines mines b → dom (grid b) = list_to_set (cells cols lines).
Proof.
  induction 1 as [|b fuel p fl b' _ IH H|b p s b' _ IH H|b fuel p s b' _ IH H|b _ IH].
  - apply random_dom.
  - by rewrite (action_dom _ _ _ _ _ H).
  - by rewrite (flag_dom _ _ _ _ H).
  - rewrite (reveal_dom _ _ _ _ _ (λ b0 n b1, action_dom fuel b0 n false b1) H). done.
  - by rewrite open_mines_dom.
Qed.

(** C10: [action] at a position that is not a key of the grid raises
    [KeyError] and leaves the board as it was; [action], [flag], [reveal]
    and [open_mines] keep the key set of the grid, whether they return or
    raise; so the grid of every board reached from [random(cols, lines, _)]
    has the [cols * lines] cells of the construction as its keys. *)
Theorem grid_keys_fixed :
  (∀ fuel b p flag_arg,
      grid b !! p = None → action (S fuel) b p flag_arg = KeyError b) ∧
  (∀ fuel b p flag_arg b',
      board_of (action fuel b p flag_arg) = Some b' → dom (grid b') = dom (grid b)) ∧
  (∀ b p state b',
      board_of (flag b p state) = Some b' → dom (grid b') = dom (grid b)) ∧
  (∀ fuel b p state b',
      board_of (reveal (λ b0 n, action fuel b0 n false) b p state) = Some b' →
      dom (grid b') = dom (grid b)) ∧
  (∀ b, dom (grid (open_mines b)) = dom (grid b)) ∧
  (∀ cols lines mines b,
      0 ≤ cols → 0 ≤ lines → reachable cols lines mines b →
      (∀ p, is_Some (grid b !! p) ↔ 0 ≤ p.1 < cols ∧ 0 ≤ p.2 < lines) ∧
      Z.of_nat (size (dom (grid b))) = cols * lines).
Proof.
  split_and!.
  - intros fuel b p fl Hp. simpl. by rewrite Hp.
  - apply action_dom.
  - apply flag_dom.
  - intros fuel b p s b'. apply reveal_dom. intros b0 n b1. apply action_dom.
  - apply open_mines_dom.
  - intros cols lines mines b Hc Hl Hr. apply reachable_dom in Hr. split.
    + intros p. by rewrite <- elem_of_dom, Hr, elem_of_list_to_set, elem_of_cells.
    + rewrite Hr, size_list_to_set, cells_length by apply cells_NoDup. lia.
Qed.

Lemma grid_keys_fixed_witness :
  action 1 board_3x3 (3, 0) true = KeyError board_3x3 ∧
  Z.of_nat (size (dom (grid (open_mines board_3x3)))) = 3 * 3.
Proof.
  destruct grid_keys_fixed as (H1 & _ & _ & _ & _ & H6). split.
  - apply H1. vm_compute. reflexivity.
  - apply (H6 3 3 [(1, 1)]); [lia | lia |].
    apply reachable_open_mines, reachable_random.
Defined.

(** ** Neighbors and hints *)

Lemma elem_of_safe_set b q : q ∈ safe_set b ↔ grid b !! q = Some _SAFE.
Proof.
  unfold safe_set. rewrite elem_of_dom. split.
  - intros [s H]. apply map_lookup_filter_Some in H as [H E]. simpl in E. by subst.
  - intros H. exists _SAFE. by apply map_lookup_filter_Some.
Qed.

Lemma get_neighbors_dims b b' p :
  cols b' = cols b → lines b' = lines b → get_neighbors b' p = get_neighbors b p.
Proof.
  intros Hc Hl. destruct p as [x y]. unfold get_neighbors, in_bounds.
  by rewrite Hc, Hl.
Qed.

Lemma get_neighbors_in_bounds b p n :
  n ∈ get_neighbors b p → in_bounds b n = true.
Proof.
  destruct p as [x y]. unfold get_neighbors. rewrite list_elem_of_omap.
  intros ([dy dx] & _ & H). simpl in H.
  destruct (in_bounds b (x + dx, y + dy)) eqn:E; by simplify_eq.
Qed.

Lemma count_mines_cons g n ns :
  count_mines g (n :: ns) =
    match g !! n, count_mines g ns with
    | Some s, Some m => Some (if decide (Z.land s _MINE = _MINE) then m + 1 else m)
    | _, _ => None
    end.
Proof.
  unfold count_mines. simpl. destruct (g !! n) as [s|]; simpl; [|done].
  destruct (mapM _ ns) as [k|]; simpl; [|done].
  rewrite filter_cons. case_decide; simpl; f_equal; lia.
Qed.

Lemma count_mines_nonneg g ns m : count_mines g ns = Some m → 0 ≤ m.
Proof.
  unfold count_mines. destruct (mapM _ ns); simpl; [|done]. intros [= <-]. lia.
Qed.

Lemma count_mines_None g ns :
  count_mines g ns = None → ∃ n, n ∈ ns ∧ g !! n = None.
Proof.
  induction ns as [|n ns IH]; [done|]. rewrite count_mines_cons.
  destruct (g !! n) as [s|] eqn:Hn; [|exists n; split; [left|done]].
  destruct (count_mines g ns); [done|]. intros _.
  destruct IH as (n' & H1 & H2); [done|]. exists n'. split; [by right|done].
Qed.

Lemma count_mines_zero g ns n :
  count_mines g ns = Some 0 → n ∈ ns →
  ∃ s, g !! n = Some s ∧ Z.land s _MINE ≠ _MINE.
Proof.
  induction ns as [|n' ns IH]; [by intros _ ?%elem_of_nil|].
  rewrite count_mines_cons.
  destruct (g !! n') as [s|] eqn:Hn; [|done].
  destruct (count_mines g ns) as [m|] eqn:Hm; [|done].
  pose proof (count_mines_nonneg _ _ _ Hm).
  case_decide; intros [= E]; [lia|subst m].
  intros [->|Hin]%elem_of_cons; [by exists s|by apply IH].
Qed.

(** The hint depends on the mine bits alone. *)
Lemma count_mines_same g g' ns :
  (∀ q, (λ s, Z.land s _MINE) <$> g' !! q = (λ s, Z.land s _MINE) <$> g !! q) →
  count_mines g' ns = count_mines g ns.
Proof.
  intros H. induction ns as [|n ns IH]; [done|]. rewrite !count_mines_cons, IH.
  specialize (H n). destruct (g' !! n), (g !! n); simplify_eq/=; [|done].
  destruct (count_mines g ns); [|done]. by rewrite H.
Qed.

(** ** Grids along a cascade *)

Section grid_step.
Context (b b' : MineSweeperBoard) (Hstep : grid_step b b').

Lemma grid_step_safe q : grid b' !! q = Some _SAFE → grid b !! q = Some _SAFE.
Proof. destruct Hstep as (_ & _ & H). destruct (H q) as [<-|[? ?]]; [done|congruence]. Qed.

Lemma grid_step_not_safe q : grid b !! q ≠ Some _SAFE → grid b' !! q ≠ Some _SAFE.
Proof. intros H1 H2. by apply H1, grid_step_safe. Qed.

Lemma grid_step_is_Some q : is_Some (grid b' !! q) ↔ is_Some (grid b !! q).
Proof.
  destruct Hstep as (_ & _ & H). destruct (H q) as [->|[-> ->]]; [done|].
  split; eauto.
Qed.

Lemma grid_step_mines q :
  (λ s, Z.land s _MINE) <$> grid b' !! q = (λ s, Z.land s _MINE) <$> grid b !! q.
Proof. destruct Hstep as (_ & _ & H). destruct (H q) as [->|[-> ->]]; done. Qed.

Lemma grid_step_neighbors c : get_neighbors b' c = get_neighbors b c.
Proof. destruct Hstep as (Hc & Hl & _). by apply get_neighbors_dims. Qed.

Lemma grid_step_zero_hint c : zero_hint b' c ↔ zero_hint b c.
Proof.
  unfold zero_hint. rewrite grid_step_neighbors.
  by rewrite (count_mines_same (grid b) (grid b')) by apply grid_step_mines.
Qed.

Lemma grid_step_valid : states_valid b → states_valid b'.
Proof.
  intros Hv q s Hq. destruct Hstep as (_ & _ & H).
  destruct (H q) as [E|[_ E]]; rewrite E in Hq; [by eapply Hv|].
  injection Hq as <-. done.
Qed.

Lemma grid_step_complete : complete b → complete b'.
Proof.
  intros Hc q Hq. apply grid_step_is_Some, Hc.
  destruct Hstep as (Hcols & Hlines & _). unfold in_bounds in *.
  by rewrite <- Hcols, <- Hlines.
Qed.

Lemma grid_step_safe_set : safe_set b' ⊆ safe_set b.
Proof. intros q. rewrite !elem_of_safe_set. apply grid_step_safe. Qed.

Lemma grid_step_cascade_step c n : cascade_step b' c n → cascade_step b c n.
Proof.
  intros (H1 & H2 & H3 & H4). split_and!.
  - by apply grid_step_safe.
  - by apply grid_step_zero_hint.
  - by rewrite <- grid_step_neighbors.
  - by apply grid_step_safe.
Qed.

Lemma grid_step_cascade_reach n q : cascade_reach b' n q → cascade_reach b n q.
Proof.
  intros [H1 H2]. split; [by apply grid_step_safe|].
  eapply rtc_subrel; [|done]. intros c1 c2. apply grid_step_cascade_step.
Qed.
End grid_step.

Lemma grid_step_refl b : grid_step b b.
Proof. split_and!; try done. by left. Qed.

Lemma grid_step_trans b1 b2 b3 :
  grid_step b1 b2 → grid_step b2 b3 → grid_step b1 b3.
Proof.
  intros (C1 & L1 & F1) (C2 & L2 & F2). split_and!; [congruence..|].
  intros q. destruct (F1 q) as [E1|[E1 E1']], (F2 q) as [E2|[E2 E2']].
  - left. congruence.
  - right. split; congruence.
  - right. split; congruence.
  - rewrite E1' in E2. discriminate.
Qed.

Lemma cascade_rel_step b ns b' : cascade_rel b ns b' → grid_step b b'.
Proof. intros []. by split_and!. Qed.

(** ** Composing the steps of a cascade *)

Lemma cascade_rel_nil b : cascade_rel b [] b.
Proof.
  split; try done.
  - by left.
  - by intros n ?%elem_of_nil.
  - intros c n H1 H2. rewrite H1 in H2. discriminate.
  - intros q H1 H2. rewrite H1 in H2. discriminate.
  - by left.
  - intros q H1 H2. rewrite H1 in H2. discriminate.
Qed.

(** A call that returns at one of the guards of [action]. *)
Lemma cascade_rel_noop b p : grid b !! p ≠ Some _SAFE → cascade_rel b [p] b.
Proof.
  intros Hp. split; try done.
  - by left.
  - by intros n ->%list_elem_of_singleton.
  - intros c n H1 H2. rewrite H1 in H2. discriminate.
  - intros q H1 H2. rewrite H1 in H2. discriminate.
  - by left.
  - intros q H1 H2. rewrite H1 in H2. discriminate.
Qed.

(** One more iteration of the loop over the neighbors. *)
Lemma cascade_rel_cons b n b1 ns b2 :
  cascade_rel b [n] b1 → cascade_rel b1 ns b2 → cascade_rel b (n :: ns) b2.
Proof.
  intros R1 R2.
  pose proof (cascade_rel_step _ _ _ R1) as S1.
  pose proof (cascade_rel_step _ _ _ R2) as S2.
  destruct R1 as [C1 L1 M1 SC1 F1 D1 Cl1 So1 La1 LO1].
  destruct R2 as [C2 L2 M2 SC2 F2 D2 Cl2 So2 La2 LO2].
  split; try congruence.
  - apply (grid_step_trans _ _ _ S1 S2).
  - intros n' [->|Hin]%elem_of_cons; [|by apply D2].
    apply (grid_step_not_safe _ _ S2), D1. by left.
  - intros c n' Hc Hc' Hz Hn. destruct (F1 c) as [E|[_ E]].
    + apply (Cl2 c n'); [congruence|done| |].
      * by apply (grid_step_zero_hint _ _ S1).
      * by rewrite (grid_step_neighbors _ _ S1).
    + apply (grid_step_not_safe _ _ S2). by apply (Cl1 c n').
  - intros q Hq Hq'. destruct (F1 q) as [E|[_ E]].
    + destruct (So2 q) as (n' & Hin & Hr); [congruence|done|].
      exists n'. split; [by right|]. by apply (grid_step_cascade_reach _ _ S1).
    + destruct (So1 q) as (n' & ->%list_elem_of_singleton & Hr); [done..|].
      exists n. split; [by left|done].
  - destruct La2 as [E|E]; [|by right]. rewrite E. done.
  - intros q Hq Hq'. destruct (F1 q) as [E|[_ E]].
    + apply (LO2 q); congruence.
    + destruct La2 as [E2|E2]; [|done]. rewrite E2. by apply (LO1 q).
Qed.

(** [reveal] on a closed, unflagged, mine-free cell: the cell is opened,
    then the neighbors [ns] are visited: all of them if the hint is zero,
    none otherwise. *)
Lemma cascade_rel_open b p b0 ns b' :
  grid b !! p = Some _SAFE →
  grid b0 = <[p := _OPEN]> (grid b) →
  cols b0 = cols b → lines b0 = lines b →
  mines_left b0 = mines_left b → safe_cells b0 = safe_cells b →
  last_clicked b0 = Some _SAFE →
  (if decide (zero_hint b p) then ns = get_neighbors b p else ns = []) →
  cascade_rel b0 ns b' →
  cascade_rel b [p] b'.
Proof.
  intros Hp Hg Hc Hl Hm Hs Hlast Hns R.
  assert (S0 : grid_step b b0).
  { split_and!; [done..|]. intros q. rewrite Hg.
    destruct (decide (q = p)) as [->|Hq].
    - right. by rewrite lookup_insert_eq.
    - left. by rewrite lookup_insert_ne. }
  assert (Hp0 : grid b0 !! p = Some _OPEN) by (by rewrite Hg, lookup_insert_eq).
  pose proof (cascade_rel_step _ _ _ R) as S1.
  destruct R as [C1 L1 M1 SC1 F1 D1 Cl1 So1 La1 LO1].
  assert (Hp' : grid b' !! p = Some _OPEN).
  { destruct (F1 p) as [E|[E _]]; [congruence|]. rewrite Hp0 in E. discriminate. }
  split; try congruence.
  - apply (grid_step_trans _ _ _ S0 S1).
  - intros n ->%list_elem_of_singleton. by rewrite Hp'.
  - intros c n Hcs Hc' Hz Hn. destruct (decide (c = p)) as [->|Hne].
    + rewrite decide_True in Hns by done. subst ns. by apply D1.
    + apply (Cl1 c n); [|done| |].
      * by rewrite Hg, lookup_insert_ne.
      * by apply (grid_step_zero_hint _ _ S0).
      * by rewrite (grid_step_neighbors _ _ S0).
  - intros q Hq Hq'. exists p. split; [by left|].
    destruct (decide (q = p)) as [->|Hne]; [by split|].
    destruct (So1 q) as (n & Hin & Hr); [by rewrite Hg, lookup_insert_ne|done|].
    destruct (decide (zero_hint b p)) as [Hz|_]; [subst ns|by subst ns; apply elem_of_nil in Hin].
    apply (grid_step_cascade_reach _ _ S0) in Hr. destruct Hr as [Hn Hr].
    split; [done|]. eapply rtc_l; [|done]. by split_and!.
  - destruct La1 as [E|E]; right; congruence.
  - intros q _ _. destruct La1 as [E|E]; congruence.
Qed.

(** ** The measure: closed, unflagged, mine-free cells *)

Lemma safe_set_open b b0 p :
  grid b !! p = Some _SAFE → grid b0 = <[p := _OPEN]> (grid b) →
  (size (safe_set b0) < size (safe_set b))%nat.
Proof.
  intros Hp Hg. apply subset_size. split.
  - intros q. rewrite !elem_of_safe_set, Hg.
    destruct (decide (q = p)) as [->|Hq].
    + by rewrite lookup_insert_eq.
    + by rewrite lookup_insert_ne.
  - intros Hsub. specialize (Hsub p). rewrite !elem_of_safe_set, Hg in Hsub.
    rewrite lookup_insert_eq in Hsub. by specialize (Hsub Hp).
Qed.

Lemma grid_step_size b b' :
  grid_step b b' → (size (safe_set b') ≤ size (safe_set b))%nat.
Proof. intros H. by apply subseteq_size, grid_step_safe_set. Qed.

Lemma valid_no_mine s :
  0 ≤ s < 8 → Z.land s _MINE ≠ _MINE → s = 0 ∨ s = 2 ∨ s = 4 ∨ s = 6.
Proof.
  intros Hs Hm.
  assert (s = 0 ∨ s = 1 ∨ s = 2 ∨ s = 3 ∨ s = 4 ∨ s = 5 ∨ s = 6 ∨ s = 7)
    as [->|[->|[->|[->|[->|[->|[->| ->]]]]]]] by lia;
    first [by destruct Hm | tauto].
Qed.

Lemma valid_mine s :
  0 ≤ s < 8 → Z.land s _MINE = _MINE → s = 1 ∨ s = 3 ∨ s = 5 ∨ s = 7.
Proof.
  intros Hs Hm.
  assert (s = 0 ∨ s = 1 ∨ s = 2 ∨ s = 3 ∨ s = 4 ∨ s = 5 ∨ s = 6 ∨ s = 7)
    as [->|[->|[->|[->|[->|[->|[->| ->]]]]]]] by lia;
    first [discriminate Hm | tauto].
Qed.

(** ** The cascade *)

(** The loop of [reveal] over cells without a mine, given what the calls of
    [action] do on boards with less than [k] closed safe cells. *)
Lemma for_each_cascade (act : MineSweeperBoard → Z * Z → outcome) (k : nat) :
  (∀ b p s, states_valid b → grid b !! p = Some s → Z.land s _MINE ≠ _MINE →
            (size (safe_set b) < k)%nat → cascade_ok b [p] (act b p)) →
  ∀ ns b, states_valid b →
          (∀ n, n ∈ ns → ∃ s, grid b !! n = Some s ∧ Z.land s _MINE ≠ _MINE) →
          (size (safe_set b) < k)%nat →
          cascade_ok b ns (for_each act b ns).
Proof.
  intros Hact ns. induction ns as [|n ns IH]; intros b Hv Hns Hk; simpl.
  - apply cascade_rel_nil.
  - destruct (Hns n) as (s & Hn & Hm); [by left|].
    specialize (Hact b n s Hv Hn Hm Hk).
    destruct (act b n) as [b1|b1|]; simpl in *; [|done..].
    pose proof (cascade_rel_step _ _ _ Hact) as S1.
    assert (IH1 : cascade_ok b1 ns (for_each act b1 ns)).
    { apply IH.
      - by apply (grid_step_valid _ _ S1).
      - intros n' Hin. destruct (Hns n') as (s' & Hn' & Hm'); [by right|].
        pose proof (grid_step_mines _ _ S1 n') as E. rewrite Hn' in E.
        destruct (grid b1 !! n') as [t|]; [|done]. exists t. split; [done|].
        simpl in E. injection E as ->. done.
      - pose proof (grid_step_size _ _ S1). lia. }
    destruct (for_each act b1 ns) as [b2|b2|]; simpl in *; [| |done].
    + by eapply cascade_rel_cons.
    + intros Hc. by apply IH1, (grid_step_complete _ _ S1).
Qed.

(** The board right after [reveal] has opened a closed safe cell and stored
    its hint [m], before the loop over the neighbors. *)
Lemma reveal_safe_eq act b p :
  grid b !! p = Some _SAFE →
  reveal act b p _SAFE =
    match count_mines (<[p := _OPEN]> (grid b)) (get_neighbors b p) with
    | None =>
        KeyError (set_cells_revealed (cells_revealed b + 1)
                   (set_grid (<[p := _OPEN]> (grid b))
                      (set_last_clicked (Some _SAFE) b)))
    | Some m =>
        let b0 := set_hints (<[p := m]> (hints b))
                    (set_cells_revealed (cells_revealed b + 1)
                       (set_grid (<[p := _OPEN]> (grid b))
                          (set_last_clicked (Some _SAFE) b))) in
        if m =? 0 then for_each act b0 (get_neighbors b p) else Done b0
    end.
Proof.
  intros Hp. unfold reveal. simpl. rewrite Hp. simpl.
  destruct p as [x y]. reflexivity.
Qed.

Lemma count_mines_open b p ns :
  grid b !! p = Some _SAFE →
  count_mines (<[p := _OPEN]> (grid b)) ns = count_mines (grid b) ns.
Proof.
  intros Hp. apply count_mines_same. intros q.
  destruct (decide (q = p)) as [->|Hq].
  - by rewrite lookup_insert_eq, Hp.
  - by rewrite lookup_insert_ne.
Qed.

(** [action(p)] on a cell without a mine, on a board with bit-set states:
    with more budget than there are closed safe cells the call does not run
    out of it, it raises only if a position is missing from the grid, and
    otherwise it returns a board related to the first by [cascade_rel]. *)
Lemma action_cascade (fuel : nat) :
  ∀ b p s, states_valid b → grid b !! p = Some s → Z.land s _MINE ≠ _MINE →
           (size (safe_set b) < fuel)%nat →
           cascade_ok b [p] (action fuel b p false).
Proof.
  induction fuel as [|fuel IH]; intros b p s Hv Hp Hm Hk; [lia|].
  simpl. rewrite Hp.
  destruct (valid_no_mine s (Hv _ _ Hp) Hm) as [->|[->|[->| ->]]]; simpl;
    try (apply cascade_rel_noop; rewrite Hp; discriminate).
  rewrite (reveal_safe_eq _ b p Hp), (count_mines_open b p _ Hp).
  destruct (count_mines (grid b) (get_neighbors b p)) as [m|] eqn:Hcnt.
  - set (b0 := set_hints _ _).
    assert (Hg0 : grid b0 = <[p := _OPEN]> (grid b)) by done.
    assert (S0 : grid_step b b0).
    { split_and!; [done..|]. intros q. rewrite Hg0.
      destruct (decide (q = p)) as [->|Hq].
      - right. by rewrite lookup_insert_eq.
      - left. by rewrite lookup_insert_ne. }
    simpl. destruct (Z.eqb_spec m 0) as [->|Hm0].
    + assert (Hloop : cascade_ok b0 (get_neighbors b p)
                (for_each (λ b' n, action fuel b' n false) b0 (get_neighbors b p))).
      { apply (for_each_cascade _ fuel); [apply IH| | |].
        - by apply (grid_step_valid _ _ S0).
        - intros n Hn. rewrite Hg0.
          apply (count_mines_zero _ (get_neighbors b p)); [|done].
          by rewrite count_mines_open.
        - pose proof (safe_set_open b b0 p Hp Hg0). lia. }
      destruct (for_each _ b0 _) as [b'|b'|]; simpl in *; [| |done].
      * eapply (cascade_rel_open b p b0); try done.
        by rewrite decide_True.
      * intros Hc. by apply Hloop, (grid_step_complete _ _ S0).
    + eapply (cascade_rel_open b p b0 []); try done.
      * rewrite decide_False; [done|]. unfold zero_hint. rewrite Hcnt. congruence.
      * apply cascade_rel_nil.
  - simpl. intros Hc. apply count_mines_None in Hcnt as (n & Hn & Hnone).
    apply get_neighbors_in_bounds, Hc in Hn. rewrite Hnone in Hn. by destruct Hn.
Qed.

(** ** More budget changes nothing *)

Section fuel_mono.
Context (act1 act2 : MineSweeperBoard → Z * Z → outcome).
Context (Hact : ∀ b n, act1 b n ≠ OutOfFuel → act2 b n = act1 b n).

Lemma for_each_mono b ns :
  for_each act1 b ns ≠ OutOfFuel → for_each act2 b ns = for_each act1 b ns.
Proof.
  revert b. induction ns as [|n ns IH]; intros b; simpl; [done|].
  intros H. rewrite Hact; [|by destruct (act1 b n)].
  destruct (act1 b n); [by apply IH|done..].
Qed.

Lemma reveal_mono b p s :
  reveal act1 b p s ≠ OutOfFuel → reveal act2 b p s = reveal act1 b p s.
Proof.
  unfold reveal. simpl. repeat case_match; try done. apply for_each_mono.
Qed.
End fuel_mono.

Lemma action_fuel_mono fuel fuel' b p flag_arg :
  (fuel ≤ fuel')%nat → action fuel b p flag_arg ≠ OutOfFuel →
  action fuel' b p flag_arg = action fuel b p flag_arg.
Proof.
  revert fuel' b p flag_arg.
  induction fuel as [|fuel IH]; intros fuel' b p fl Hle; [done|].
  destruct fuel' as [|fuel']; [lia|]. simpl.
  repeat case_match; try done.
  apply reveal_mono. intros b0 n. apply IH. lia.
Qed.

(** ** Termination *)

Lemma flag_returns b p s : flag b p s ≠ OutOfFuel.
Proof. unfold flag. repeat case_match; done. Qed.

Lemma cascade_ok_returns b ns o : cascade_ok b ns o → o ≠ OutOfFuel.
Proof. by destruct o. Qed.

Lemma action_enough_fuel fuel b p flag_arg :
  states_valid b → (size (safe_set b) + 2 ≤ fuel)%nat →
  action fuel b p flag_arg ≠ OutOfFuel.
Proof.
  intros Hv Hk.
  destruct (grid b !! p) as [s|] eqn:Hp;
    [|destruct fuel; [lia|]; simpl; by rewrite Hp].
  destruct flag_arg.
  { destruct fuel; [lia|]. simpl. rewrite Hp.
    destruct (s =? _OPEN); [done|apply flag_returns]. }
  destruct (decide (Z.land s _MINE = _MINE)) as [Hm|Hm].
  - destruct fuel as [|fuel]; [lia|]. simpl. rewrite Hp.
    destruct (valid_mine s (Hv _ _ Hp) Hm) as [->|[->|[->| ->]]]; simpl; try done.
    + unfold reveal. simpl. rewrite Hp. done.
    + unfold reveal. simpl. rewrite Hp. simpl.
      rewrite (insert_id (grid b) p 5 Hp).
      destruct (count_mines _ _) as [m|] eqn:Hcnt; [|done].
      destruct (Z.eqb_spec m 0) as [->|]; [|done].
      eapply cascade_ok_returns, (for_each_cascade _ fuel).
      * intros b0 n s0. apply action_cascade.
      * done.
      * intros n Hn. by eapply count_mines_zero.
      * simpl. unfold safe_set in *. simpl. lia.
  - eapply cascade_ok_returns, action_cascade; [done..|lia].
Qed.

(** C8: on a board whose cell states are bit sets over [_MINE], [_FLAGGED]
    and [_OPEN], [action(p, flag)] terminates at every position: a budget
    of two more calls than there are closed, unflagged, mine-free cells is
    never used up (every nested reveal opens one of these cells, open and
    flagged cells return at once), and every such budget gives the same
    result, a return or a [KeyError]. *)
Theorem action_terminates (b : MineSweeperBoard) (p : Z * Z) (flag_arg : bool) :
  states_valid b →
  ∃ o, o ≠ OutOfFuel ∧
       ∀ fuel, (size (safe_set b) + 2 ≤ fuel)%nat → action fuel b p flag_arg = o.
Proof.
  intros Hv. exists (action (size (safe_set b) + 2) b p flag_arg).
  assert (H : action (size (safe_set b) + 2) b p flag_arg ≠ OutOfFuel)
    by by apply action_enough_fuel.
  split; [done|]. intros fuel Hle. by apply action_fuel_mono.
Qed.

Lemma random_valid cols lines mines : states_valid (random cols lines mines).
Proof.
  intros p s. unfold random. simpl. intros H.
  apply elem_of_list_to_map_2, list_elem_of_fmap in H as (q & [= -> ->] & _).
  case_bool_decide; done.
Qed.

Lemma random_complete cols lines mines : complete (random cols lines mines).
Proof.
  intros p Hp. apply elem_of_dom.
  rewrite random_dom, elem_of_list_to_set, elem_of_cells.
  unfold in_bounds in Hp. simpl in Hp. lia.
Qed.

Lemma action_terminates_witness :
  ∃ o, o ≠ OutOfFuel ∧
       ∀ fuel, (size (safe_set board_3x3) + 2 ≤ fuel)%nat →
               action fuel board_3x3 (0, 0) false = o.
Proof. apply (action_terminates board_3x3 (0, 0) false), random_valid. Defined.

(** ** What a cascade opens *)

Lemma zero_region_closed b p c : zero_region b p c → closed_zero b c.
Proof.
  intros [Hp Hr]. induction Hr as [|c n q Hl _ IH]; [done|].
  apply IH. by destruct Hl as (_ & _ & ?).
Qed.

Lemma zero_link_step b c n : zero_link b c n → cascade_step b c n.
Proof. intros ([? ?] & ? & [? ?]). by split_and!. Qed.

(** The cells a cascade from a closed zero-hint cell [p] can reach are the
    zero-hint region of [p] and its ring. *)
Lemma cascade_reach_region b p q :
  closed_zero b p →
  cascade_reach b p q ↔ zero_region b p q ∨ zero_ring b p q.
Proof.
  intros Hp. split.
  - intros [_ Hr]. revert q Hr. apply rtc_ind_r.
    + left. by split.
    + intros c n _ Hs IH. pose proof Hs as (Hc & Hz & Hn & Hn').
      assert (Hreg : zero_region b p c).
      { destruct IH as [?|(_ & Hnz & _)]; [done|by destruct Hnz]. }
      destruct (decide (zero_hint b n)) as [Hzn|Hzn].
      * left. split; [done|]. eapply rtc_r; [apply Hreg|]. by split_and!.
      * right. split_and!; [done..|]. by exists c.
  - intros [[_ Hr]|(Hq & _ & c & Hreg & Hn)].
    + split; [apply Hp|]. eapply rtc_subrel; [|done]. apply zero_link_step.
    + pose proof (zero_region_closed _ _ _ Hreg) as [Hc Hz].
      split; [apply Hp|]. eapply rtc_r.
      * eapply rtc_subrel; [|apply Hreg]. apply zero_link_step.
      * by split_and!.
Qed.

(** Every cell the cascade can reach from an opened cell is opened. *)
Lemma cascade_rel_complete b ns b' c q :
  cascade_rel b ns b' →
  grid b !! c = Some _SAFE → grid b' !! c = Some _OPEN →
  rtc (cascade_step b) c q → grid b' !! q = Some _OPEN.
Proof.
  intros R Hc Hc' Hr. induction Hr as [|c n q (_ & Hz & Hn & Hn') _ IH]; [done|].
  apply IH; [done|].
  destruct (cr_frame _ _ _ R n) as [E|[_ E]]; [|done].
  destruct (cr_closed _ _ _ R c n); [done..|congruence].
Qed.

Lemma cascade_rel_opened b p b' :
  cascade_rel b [p] b' → grid b !! p = Some _SAFE → grid b' !! p = Some _OPEN.
Proof.
  intros R Hp. destruct (cr_frame _ _ _ R p) as [E|[_ E]]; [|done].
  destruct (cr_done _ _ _ R p); [by left|congruence].
Qed.

(** [action(p)] on a complete board with bit-set states, at a cell without
    a mine bit, returns. *)
Lemma action_cascade_done fuel b p s :
  states_valid b → complete b → grid b !! p = Some s →
  Z.land s _MINE ≠ _MINE → (size (safe_set b) < fuel)%nat →
  ∃ b', action fuel b p false = Done b' ∧ cascade_rel b [p] b'.
Proof.
  intros Hv Hc Hp Hm Hk. pose proof (action_cascade fuel b p s Hv Hp Hm Hk) as H.
  destruct (action fuel b p false) as [b'|b'|]; simpl in H; [|done..].
  by exists b'.
Qed.

Lemma flagged_cell_blocks_cascade_counterexample :
  ∃ b b',
    action 1 board_3x1 (1, 0) true = Done b ∧
    grid b !! (0, 0) = Some _SAFE ∧
    zero_hint b (0, 0) ∧
    spec_zero_region b (0, 0) (2, 0) ∧
    action 5 b (0, 0) false = Done b' ∧
    grid b' !! (2, 0) = Some _SAFE.
Proof.
  eexists _, _. split; [vm_compute; reflexivity|].
  split; [vm_compute; reflexivity|].
  split; [vm_compute; reflexivity|].
  split.
  { apply (szr_step _ _ (1, 0)); [apply (szr_step _ _ (0, 0));[apply szr_start|..]|..];
      first [ vm_compute; reflexivity
            | apply list_elem_of_In; vm_compute; tauto ]. }
  split; vm_compute; reflexivity.
Qed.

(** C5, amended: on a complete board with bit-set states, a click on a
    closed, unflagged cell [p] with hint zero opens exactly the closed,
    unflagged cells of the zero-hint region linked to [p] through closed,
    unflagged zero-hint cells, and the closed, unflagged cells with a
    non-zero hint that border this region; the state of every other cell
    (flagged and open cells among them) stays as it was. *)
Theorem cascade_opens_region (fuel : nat) (b : MineSweeperBoard) (p : Z * Z) :
  states_valid b → complete b →
  grid b !! p = Some _SAFE → zero_hint b p →
  (size (safe_set b) < fuel)%nat →
  ∃ b', action fuel b p false = Done b' ∧
        ∀ q, (zero_region b p q ∨ zero_ring b p q → grid b' !! q = Some _OPEN) ∧
             (¬ (zero_region b p q ∨ zero_ring b p q) → grid b' !! q = grid b !! q).
Proof.
  intros Hv Hc Hp Hz Hk.
  destruct (action_cascade_done fuel b p _SAFE) as (b' & Hact & R); [done..|].
  exists b'. split; [done|]. intros q.
  rewrite <- (cascade_reach_region b p q) by done. split.
  - intros [_ Hr].
    apply (cascade_rel_complete b [p] b' p q R Hp); [|done].
    by apply (cascade_rel_opened b p b' R).
  - intros Hn. destruct (cr_frame _ _ _ R q) as [E|[E E']]; [done|].
    destruct (cr_sound _ _ _ R q) as (n & ->%list_elem_of_singleton & Hr); done.
Qed.

Lemma cascade_opens_region_witness :
  ∃ b', action 4 board_3x1 (0, 0) false = Done b' ∧
        grid b' !! (2, 0) = Some _OPEN.
Proof.
  destruct (cascade_opens_region 4 board_3x1 (0, 0)) as (b' & Hact & Hq).
  - apply random_valid.
  - apply random_complete.
  - vm_compute. reflexivity.
  - vm_compute. reflexivity.
  - vm_compute. lia.
  - exists b'. split; [done|]. apply Hq. left. split; [by split|].
    apply (rtc_l _ _ (1, 0)).
    { split_and!; first [ vm_compute; reflexivity | by split
                        | apply list_elem_of_In; vm_compute; tauto ]. }
    apply rtc_once.
    split_and!; first [ vm_compute; reflexivity | by split
                      | apply list_elem_of_In; vm_compute; tauto ].
Defined.

(** ** [last_clicked] after a click on a cell without a mine *)

Lemma stale_last_clicked_counterexample :
  ∃ b b',
    play 1 board_3x3 [((0, 0), false); ((1, 1), false)] = Done b ∧
    grid b !! (0, 0) = Some _OPEN ∧
    Z.land _OPEN _MINE ≠ _MINE ∧
    action 9 b (0, 0) false = Done b' ∧
    last_clicked b' = Some _MINE.
Proof.
  eexists _, _. split; [vm_compute; reflexivity|].
  split; [vm_compute; reflexivity|].
  split; [discriminate|].
  split; vm_compute; reflexivity.
Qed.

(** C9, amended: on a complete board with bit-set states, a click on a cell
    [p] without a mine returns; if [p] was closed and unflagged,
    [last_clicked] is [_SAFE] afterwards (every reveal of the cascade
    records the prior state [_SAFE]); otherwise the call changes nothing,
    [last_clicked] included.  So [last_clicked] is [_MINE] after the call
    only if it was [_MINE] before it. *)
Theorem cascade_last_clicked (fuel : nat) (b : MineSweeperBoard) (p : Z * Z) (s : Z) :
  states_valid b → complete b →
  grid b !! p = Some s → Z.land s _MINE ≠ _MINE →
  (size (safe_set b) < fuel)%nat →
  ∃ b', action fuel b p false = Done b' ∧
        (s = _SAFE → last_clicked b' = Some _SAFE) ∧
        (s ≠ _SAFE → b' = b) ∧
        (last_clicked b ≠ Some _MINE → last_clicked b' ≠ Some _MINE).
Proof.
  intros Hv Hc Hp Hm Hk.
  destruct (action_cascade_done fuel b p s) as (b' & Hact & R); [done..|].
  exists b'. split; [done|]. split_and!.
  - intros ->. apply (cr_last_open _ _ _ R p); [done|].
    by apply (cascade_rel_opened b p b' R).
  - intros Hs. destruct fuel as [|fuel]; [lia|]. simpl in Hact. rewrite Hp in Hact.
    destruct (valid_no_mine s (Hv _ _ Hp) Hm) as [->|[->|[->| ->]]];
      [done|simpl in Hact; by injection Hact..].
  - intros Hb. destruct (cr_last _ _ _ R) as [E|E]; rewrite E; [done|discriminate].
Qed.

Lemma cascade_last_clicked_witness :
  ∃ b', action 9 board_3x3 (0, 0) false = Done b' ∧
        last_clicked b' = Some _SAFE ∧ last_clicked b' ≠ Some _MINE.
Proof.
  destruct (cascade_last_clicked 9 board_3x3 (0, 0) 0) as (b' & Hact & H1 & _ & H3).
  - apply random_valid.
  - apply random_complete.
  - vm_compute. reflexivity.
  - vm_compute. discriminate.
  - vm_compute. lia.
  - exists b'. split; [done|]. split; [by apply H1|]. apply H3. vm_compute. discriminate.
Defined.

(** * Further properties of the board *)

(** ** [get_neighbors]: the Moore neighborhood *)

Lemma omap_filter_fmap {A B} (g : A → B) (P : B → bool) (l : list A) :
  omap (λ a, if P (g a) then Some (g a) else None) l
  = filter (λ q, P q = true) (g <$> l).
Proof.
  induction l as [|a l IH]; [done|].
  rewrite fmap_cons, filter_cons. csimpl. rewrite IH.
  destruct (P (g a)) eqn:E.
  - by rewrite decide_True.
  - by rewrite decide_False.
Qed.

Lemma get_neighbors_filter b x y :
  get_neighbors b (x, y) =
    filter (λ q, in_bounds b q = true)
           ((λ o : Z * Z, (x + o.2, y + o.1)) <$> neighbors_offsets).
Proof.
  unfold get_neighbors.
  rewrite <- (omap_filter_fmap (λ o : Z * Z, (x + o.2, y + o.1)) (in_bounds b)).
  apply list_omap_ext, Forall_Forall2_diag, Forall_forall. by intros [dy dx] _.
Qed.

(** X1: [get_neighbors] lists, without repetition, exactly the in-bounds
    cells other than the position itself whose two coordinates differ from
    it by at most one; there are at most eight of them. *)
Theorem get_neighbors_moore (b : MineSweeperBoard) (p : Z * Z) :
  (∀ n, n ∈ get_neighbors b p ↔
        in_bounds b n = true ∧ n ≠ p ∧
        Z.abs (n.1 - p.1) ≤ 1 ∧ Z.abs (n.2 - p.2) ≤ 1) ∧
  NoDup (get_neighbors b p) ∧
  (length (get_neighbors b p) ≤ 8)%nat.
Proof.
  destruct p as [x y]. rewrite get_neighbors_filter. split_and!.
  - intros [nx ny]. rewrite list_elem_of_filter, list_elem_of_fmap. simpl. split.
    + intros (Hb & [dy dx] & [= -> ->] & Ho). simpl. split; [done|].
      unfold neighbors_offsets in Ho.
      repeat (apply elem_of_cons in Ho as [[= -> ->]|Ho]);
        [split; [intros [= ? ?]|]; lia..|by apply elem_of_nil in Ho].
    + intros (Hb & Hne & Hx & Hy). split; [done|].
      exists (ny - y, nx - x). simpl. split; [f_equal; lia|].
      assert (nx - x = -1 ∨ nx - x = 0 ∨ nx - x = 1) as Hdx by lia.
      assert (ny - y = -1 ∨ ny - y = 0 ∨ ny - y = 1) as Hdy by lia.
      assert (¬ (nx - x = 0 ∧ ny - y = 0)).
      { intros [? ?]. apply Hne. f_equal; lia. }
      unfold neighbors_offsets.
      destruct Hdx as [E1|[E1|E1]], Hdy as [E2|[E2|E2]];
        first [lia | rewrite E1, E2; apply list_elem_of_In; simpl; tauto].
  - apply NoDup_filter, NoDup_fmap_2_strong.
    + intros [a1 a2] [c1 c2] _ _ [= ? ?]. f_equal; lia.
    + apply (bool_decide_unpack _). vm_compute. exact I.
  - etrans; [apply length_filter|]. by rewrite length_fmap.
Qed.

(** X2: adjacency is symmetric: a cell lists each of its in-bounds
    neighbors, and is listed by them. *)
Theorem get_neighbors_sym (b : MineSweeperBoard) (p n : Z * Z) :
  in_bounds b p = true → n ∈ get_neighbors b p → p ∈ get_neighbors b n.
Proof.
  intros Hp Hn.
  apply (get_neighbors_moore b p) in Hn as (Hb & Hne & Hx & Hy).
  apply (get_neighbors_moore b n). split_and!; [done|congruence|lia..].
Qed.

Lemma get_neighbors_sym_witness :
  (0, 0) ∈ get_neighbors board_3x3 (1, 1).
Proof.
  apply (get_neighbors_sym board_3x3 (0, 0) (1, 1)).
  - vm_compute. reflexivity.
  - apply list_elem_of_In. vm_compute. tauto.
Defined.

(** ** The hint *)

Lemma count_mines_length g ns m :
  count_mines g ns = Some m → 0 ≤ m ≤ Z.of_nat (length ns).
Proof.
  unfold count_mines. destruct (mapM _ ns) as [k|] eqn:Hk; simpl; [|done].
  intros [= <-]. apply length_mapM in Hk. rewrite Hk.
  pose proof (length_filter (λ s, Z.land s _MINE = _MINE) k). lia.
Qed.

(** X3: the number [reveal] stores as a hint is defined exactly when every
    neighbor is a key of the grid, and then lies between 0 and 8; it is 0
    exactly when no neighbor carries the mine bit. *)
Theorem hint_range (b : MineSweeperBoard) (p : Z * Z) :
  (is_Some (count_mines (grid b) (get_neighbors b p)) ↔
   ∀ n, n ∈ get_neighbors b p → is_Some (grid b !! n)) ∧
  (∀ m, count_mines (grid b) (get_neighbors b p) = Some m → 0 ≤ m ≤ 8) ∧
  (count_mines (grid b) (get_neighbors b p) = Some 0 ↔
   ∀ n, n ∈ get_neighbors b p →
        ∃ s, grid b !! n = Some s ∧ Z.land s _MINE ≠ _MINE).
Proof.
  split_and!.
  - split.
    + intros [m Hm]. induction (get_neighbors b p) as [|n ns IH] in m, Hm |- *;
        [by intros ? ?%elem_of_nil|].
      rewrite count_mines_cons in Hm.
      destruct (grid b !! n) as [s|] eqn:Hn; [|done].
      destruct (count_mines (grid b) ns) as [m'|]; [|done].
      intros n' [->|Hin]%elem_of_cons; [by rewrite Hn|by eapply IH].
    + intros H. destruct (count_mines _ _) eqn:Hc; [done|].
      apply count_mines_None in Hc as (n & Hin & Hnone).
      apply H in Hin. rewrite Hnone in Hin. by destruct Hin.
  - intros m Hm. apply count_mines_length in Hm.
    pose proof (get_neighbors_moore b p) as (_ & _ & Hlen). lia.
  - split; [intros H n; by apply count_mines_zero|].
    induction (get_neighbors b p) as [|n ns IH]; [done|]. intros H.
    rewrite count_mines_cons. destruct (H n) as (s & -> & Hs); [by left|].
    rewrite IH; [by rewrite decide_False|]. intros n' Hn'. apply H. by right.
Qed.

(** ** Construction *)

Lemma random_lookup cols lines mines p :
  grid (random cols lines mines) !! p =
    if decide (p ∈ cells cols lines)
    then Some (if bool_decide (p ∈ mines) then _MINE else _SAFE) else None.
Proof.
  unfold random. simpl. case_decide as Hp.
  - apply elem_of_list_to_map_1.
    + rewrite <- list_fmap_compose. simpl. rewrite list_fmap_id. apply cells_NoDup.
    + apply list_elem_of_fmap. by exists p.
  - apply not_elem_of_list_to_map_1. rewrite <- list_fmap_compose. simpl.
    by rewrite list_fmap_id.
Qed.

Lemma elem_of_cells_in_state s b q : q ∈ cells_in_state s b ↔ grid b !! q = Some s.
Proof.
  unfold cells_in_state. rewrite elem_of_dom. split.
  - intros [t H]. apply map_lookup_filter_Some in H as [H E]. simpl in E. by subst.
  - intros H. exists s. by apply map_lookup_filter_Some.
Qed.

Lemma elem_of_mined_cells b q :
  q ∈ mined_cells b ↔ ∃ s, grid b !! q = Some s ∧ Z.land s _MINE = _MINE.
Proof.
  unfold mined_cells. rewrite elem_of_dom. split.
  - intros [t H]. apply map_lookup_filter_Some in H as [H E]. by exists t.
  - intros (s & H & E). exists s. by apply map_lookup_filter_Some.
Qed.

Lemma random_mined cols lines mines :
  is_sample cols lines mines →
  mined_cells (random cols lines mines) = list_to_set mines.
Proof.
  intros [_ Hsub]. apply set_eq. intros q.
  rewrite elem_of_mined_cells, elem_of_list_to_set, random_lookup. split.
  - intros (s & H & E). case_decide; [|done]. injection H as <-.
    case_bool_decide; [done|discriminate E].
  - intros Hq. exists _MINE. rewrite decide_True by by apply Hsub.
    by rewrite bool_decide_true.
Qed.

Lemma random_safe cols lines mines :
  cells_in_state _SAFE (random cols lines mines)
  = list_to_set (cells cols lines) ∖ list_to_set mines.
Proof.
  apply set_eq. intros q.
  rewrite elem_of_cells_in_state, elem_of_difference, !elem_of_list_to_set, random_lookup.
  split.
  - intros H. case_decide; [|done]. injection H as H.
    case_bool_decide; [discriminate H|done].
  - intros [Hc Hm]. rewrite decide_True by done. by rewrite bool_decide_false.
Qed.

(** X4: [random(cols, lines, num_of_mines)], for a sample of distinct cells
    of the grid: a cell of the rectangle is [_MINE] if it was sampled and
    [_SAFE] otherwise, no other position is a key; the mined cells are the
    sample, [mines_left] is their number, [safe_cells] is the number of
    [_SAFE] cells; nothing is revealed, hinted or clicked yet. *)
Theorem random_board (cols lines : Z) (mines : list (Z * Z)) :
  0 ≤ cols → 0 ≤ lines → is_sample cols lines mines →
  let b := random cols lines mines in
  (∀ p, grid b !! p =
        if decide (0 ≤ p.1 < cols ∧ 0 ≤ p.2 < lines)
        then Some (if bool_decide (p ∈ mines) then _MINE else _SAFE) else None) ∧
  mined_cells b = list_to_set mines ∧
  mines_left b = Z.of_nat (size (mined_cells b)) ∧
  safe_cells b = Z.of_nat (size (cells_in_state _SAFE b)) ∧
  hints b = ∅ ∧ cells_revealed b = 0 ∧ last_clicked b = None.
Proof.
  intros Hc Hl Hs b. pose proof Hs as [Hnd Hsub]. split_and!; try done.
  - intros p. unfold b. rewrite random_lookup.
    destruct (decide (p ∈ cells cols lines)) as [H|H];
      rewrite elem_of_cells in H; [by rewrite decide_True|by rewrite decide_False].
  - by apply random_mined.
  - unfold b. rewrite random_mined, size_list_to_set by done. done.
  - unfold b. rewrite random_safe, size_difference.
    + rewrite !size_list_to_set, cells_length by (done || apply cells_NoDup).
      simpl. assert (length mines ≤ length (cells cols lines))%nat.
      { rewrite <- (size_list_to_set (C := gset (Z * Z)) mines) by done.
        rewrite <- (size_list_to_set (C := gset (Z * Z)) (cells cols lines))
          by apply cells_NoDup.
        apply subseteq_size. intros q. rewrite !elem_of_list_to_set. apply Hsub. }
      rewrite cells_length in H. lia.
    + intros q. rewrite !elem_of_list_to_set. apply Hsub.
Qed.

Lemma random_board_witness :
  grid board_3x3 !! (1, 1) = Some _MINE ∧ safe_cells board_3x3 = 8 ∧
  Z.of_nat (size (cells_in_state _SAFE board_3x3)) = 8.
Proof.
  destruct (random_board 3 3 [(1, 1)]) as (H1 & _ & _ & H4 & _); [lia..| |].
  - split; [by apply NoDup_singleton|]. intros p ->%list_elem_of_singleton.
    apply elem_of_cells. simpl. lia.
  - unfold board_3x3. split_and!.
    + by rewrite H1.
    + vm_compute. reflexivity.
    + rewrite <- H4. vm_compute. reflexivity.
Defined.

(** ** [open_mines] *)

Lemma open_mines_loop_lookup (l : list (Z * Z * Z)) (g : gmap (Z * Z) Z) q :
  let r := foldl (λ g '(position, state),
                    if Z.land state _MINE =? _MINE
                    then <[position := _OPEN_MINE]> g else g) g l in
  ((∃ s, (q, s) ∈ l ∧ Z.land s _MINE = _MINE) → r !! q = Some _OPEN_MINE) ∧
  ((∀ s, (q, s) ∈ l → Z.land s _MINE ≠ _MINE) → r !! q = g !! q).
Proof.
  revert g. induction l as [|[p s] l IHl]; intros g; simpl.
  { split; [by intros (s & ?%elem_of_nil & _)|done]. }
  destruct (IHl (if Z.land s _MINE =? _MINE then <[p := _OPEN_MINE]> g else g))
    as [IH1 IH2].
  split.
  - intros (t & Hin & Ht).
    destruct (decide (Exists (λ kv : Z * Z * Z,
                                kv.1 = q ∧ Z.land kv.2 _MINE = _MINE) l)) as [Hl|Hl].
    { apply IH1. apply Exists_exists in Hl as ([q' t'] & Hin' & [E1 E2]).
      simpl in *. subst q'. by exists t'. }
    rewrite Exists_exists in Hl.
    apply elem_of_cons in Hin as [[= <- <-]|Hin]; [|destruct Hl; by exists (q, t)].
    rewrite IH2; [|intros t' Ht' E; apply Hl; by exists (q, t')].
    destruct (Z.eqb_spec (Z.land t _MINE) _MINE); [|done]. apply lookup_insert_eq.
  - intros Hno. rewrite IH2; [|intros t Ht; apply Hno; by right].
    destruct (Z.eqb_spec (Z.land s _MINE) _MINE) as [E|E]; [|done].
    apply lookup_insert_ne. intros ->. by apply (Hno s); [left|].
Qed.

Lemma open_mines_lookup b q :
  grid (open_mines b) !! q =
    (λ s, if decide (Z.land s _MINE = _MINE) then _OPEN_MINE else s) <$> grid b !! q.
Proof.
  unfold open_mines. simpl.
  destruct (open_mines_loop_lookup (map_to_list (grid b)) (grid b) q) as [H1 H2].
  destruct (grid b !! q) as [s|] eqn:Hq; simpl.
  - case_decide as E.
    + apply H1. exists s. by rewrite elem_of_map_to_list.
    + rewrite H2; [done|]. intros t Ht. apply elem_of_map_to_list in Ht. congruence.
  - rewrite H2; [done|]. intros t Ht. apply elem_of_map_to_list in Ht. congruence.
Qed.

(** X5: [open_mines] puts every cell with the mine bit in state
    [_OPEN_MINE], flagged or not, and leaves every other cell, the hints and
    all counters as they were. *)
Theorem open_mines_spec (b : MineSweeperBoard) :
  (∀ q s, grid b !! q = Some s → Z.land s _MINE = _MINE →
          grid (open_mines b) !! q = Some _OPEN_MINE) ∧
  (∀ q s, grid b !! q = Some s → Z.land s _MINE ≠ _MINE →
          grid (open_mines b) !! q = Some s) ∧
  (∀ q, grid b !! q = None → grid (open_mines b) !! q = None) ∧
  mines_left (open_mines b) = mines_left b ∧
  hints (open_mines b) = hints b ∧
  cells_revealed (open_mines b) = cells_revealed b ∧
  safe_cells (open_mines b) = safe_cells b ∧
  last_clicked (open_mines b) = last_clicked b ∧
  cols (open_mines b) = cols b ∧ lines (open_mines b) = lines b.
Proof.
  split_and!; try done.
  - intros q s Hq E. by rewrite open_mines_lookup, Hq; simpl; rewrite decide_True.
  - intros q s Hq E. by rewrite open_mines_lookup, Hq; simpl; rewrite decide_False.
  - intros q Hq. by rewrite open_mines_lookup, Hq.
Qed.

Lemma open_mines_spec_witness :
  grid (open_mines board_3x3) !! (1, 1) = Some _OPEN_MINE ∧
  grid (open_mines board_3x3) !! (0, 0) = Some _SAFE.
Proof.
  destruct (open_mines_spec board_3x3) as (H1 & H2 & _). split.
  - apply (H1 _ 1); vm_compute; reflexivity.
  - apply (H2 _ 0); [vm_compute; reflexivity|vm_compute; discriminate].
Defined.

(** X6: [open_mines] is idempotent. *)
Theorem open_mines_idempotent (b : MineSweeperBoard) :
  open_mines (open_mines b) = open_mines b.
Proof.
  apply board_eq; try done. apply map_eq. intros q.
  rewrite (open_mines_lookup (open_mines b)), open_mines_lookup.
  destruct (grid b !! q) as [s|]; [|done]. simpl.
  destruct (decide (Z.land s _MINE = _MINE)); [done|]. by rewrite decide_False.
Qed.

(** ** Flag clicks *)

(** X7: a flag click on a cell that is not in state [_OPEN] toggles the
    flag bit of that cell and touches no other cell; [mines_left] goes down
    by one if the cell was a closed unflagged mine ([_MINE]), up by one if it
    was a closed flagged mine ([_MINE | _FLAGGED]), and is unchanged
    otherwise; hints, [cells_revealed] and [last_clicked] stay. *)
Theorem flag_click_toggles (fuel : nat) (b : MineSweeperBoard) (p : Z * Z) (s : Z) :
  grid b !! p = Some s → s ≠ _OPEN →
  ∃ b', action (S fuel) b p true = Done b' ∧
        grid b' = <[p := Z.lxor s _FLAGGED]> (grid b) ∧
        Z.testbit (Z.lxor s _FLAGGED) 1 = negb (Z.testbit s 1) ∧
        (∀ k, 0 ≤ k → k ≠ 1 → Z.testbit (Z.lxor s _FLAGGED) k = Z.testbit s k) ∧
        mines_left b' =
          (if decide (s = _MINE) then mines_left b - 1
           else if decide (s = Z.lor _MINE _FLAGGED) then mines_left b + 1
           else mines_left b) ∧
        hints b' = hints b ∧ cells_revealed b' = cells_revealed b ∧
        last_clicked b' = last_clicked b ∧ safe_cells b' = safe_cells b ∧
        cols b' = cols b ∧ lines b' = lines b.
Proof.
  intros Hp Hs. rewrite (action_flag_eq fuel b p s Hp Hs).
  eexists. split; [done|]. split_and!; try done.
  - rewrite testbit_lxor_FLAGGED by lia. apply xorb_true_r.
  - intros k Hk Hk1. rewrite testbit_lxor_FLAGGED by lia.
    destruct (Z.eqb_spec k 1); [done|]. apply xorb_false_r.
  - simpl. destruct (Z.eqb_spec s _MINE); [by rewrite decide_True|].
    rewrite decide_False by done. change (Z.lor _MINE _FLAGGED) with 3.
    destruct (Z.eqb_spec s 3); [by rewrite decide_True|by rewrite decide_False].
Qed.

Lemma flag_click_toggles_witness :
  ∃ b', action 1 board_3x3 (1, 1) true = Done b' ∧
        grid b' !! (1, 1) = Some 3 ∧ mines_left b' = 0.
Proof.
  destruct (flag_click_toggles 0 board_3x3 (1, 1) 1) as (b' & H1 & H2 & _ & _ & H3 & _).
  - vm_compute. reflexivity.
  - discriminate.
  - exists b'. split; [done|]. rewrite H2, H3. split; vm_compute; reflexivity.
Defined.

(** X8: a flag protects a cell: after a flag click has set the flag on a
    cell, a reveal click on it returns and changes nothing. *)
Theorem flagged_cell_not_revealed (f1 f2 : nat) (b : MineSweeperBoard) (p : Z * Z) (s : Z) :
  grid b !! p = Some s → s ≠ _OPEN → Z.land s _FLAGGED ≠ _FLAGGED →
  ∃ b1, action (S f1) b p true = Done b1 ∧
        grid b1 !! p = Some (Z.lor s _FLAGGED) ∧
        action (S f2) b1 p false = Done b1.
Proof.
  intros Hp Hs Hf. rewrite (action_flag_eq f1 b p s Hp Hs).
  assert (Hbit : Z.testbit s 1 = false).
  { rewrite is_flagged_testbit in Hf. by destruct (Z.testbit s 1). }
  rewrite <- (lor_lxor_FLAGGED s Hbit).
  eexists. split; [done|]. split; [apply lookup_insert_eq|].
  simpl. rewrite lookup_insert_eq.
  assert (Hset : Z.testbit (Z.lor s _FLAGGED) 1 = true).
  { rewrite testbit_lor_FLAGGED by lia. apply orb_true_r. }
  destruct (Z.eqb_spec (Z.lor s _FLAGGED) _OPEN) as [E|_]; [done|].
  apply is_flagged_testbit in Hset. rewrite Hset. done.
Qed.

Lemma flagged_cell_not_revealed_witness :
  ∃ b1, action 1 board_3x3 (1, 1) true = Done b1 ∧
        action 1 b1 (1, 1) false = Done b1.
Proof.
  destruct (flagged_cell_not_revealed 0 0 board_3x3 (1, 1) 1) as (b1 & H1 & _ & H2).
  - vm_compute. reflexivity.
  - discriminate.
  - vm_compute. discriminate.
  - by exists b1.
Defined.

(** ** What [reveal] writes itself *)

Lemma for_each_skip b ns : for_each skip b ns = Done b.
Proof. by induction ns. Qed.

(** [reveal] either stops after its own writes, or goes on with the loop
    over the neighbors from the board it has written. *)
Lemma reveal_head act b p s :
  reveal act b p s = reveal skip b p s ∨
  ∃ b1, reveal skip b p s = Done b1 ∧
        reveal act b p s = for_each act b1 (get_neighbors b p).
Proof.
  unfold reveal. simpl. destruct (grid b !! p) as [cur|]; [|by left].
  destruct (s =? _MINE); [by left|].
  destruct (count_mines _ _) as [m|]; [|by left].
  destruct (m =? 0); [|by left].
  right. eexists. split; [apply for_each_skip|done].
Qed.

Lemma reveal_skip_cases b p s b' :
  board_of (reveal skip b p s) = Some b' →
  (grid b !! p = None ∧ b' = set_last_clicked (Some s) b) ∨
  ∃ cur, grid b !! p = Some cur ∧
         grid b' = <[p := Z.lor cur _OPEN]> (grid b) ∧
         last_clicked b' = Some s ∧
         cols b' = cols b ∧ lines b' = lines b ∧
         mines_left b' = mines_left b ∧ safe_cells b' = safe_cells b ∧
         ((s = _MINE ∧ cells_revealed b' = cells_revealed b ∧ hints b' = hints b) ∨
          (s ≠ _MINE ∧ cells_revealed b' = cells_revealed b + 1 ∧
           ((count_mines (grid b') (get_neighbors b' p) = None ∧ hints b' = hints b) ∨
            ∃ m, count_mines (grid b') (get_neighbors b' p) = Some m ∧
                 hints b' = <[p := m]> (hints b)))).
Proof.
  unfold reveal. simpl. destruct (grid b !! p) as [cur|] eqn:Hp.
  2:{ intros [= <-]. by left. }
  intros H. right. exists cur. split; [done|].
  destruct (Z.eqb_spec s _MINE) as [->|Hs].
  { injection H as <-. simpl. split_and!; try done. by left. }
  destruct (count_mines _ _) as [m|] eqn:Hm.
  - assert (Hb : b' = set_hints (<[p := m]> (hints b))
                        (set_cells_revealed (cells_revealed b + 1)
                           (set_grid (<[p := Z.lor cur _OPEN]> (grid b))
                              (set_last_clicked (Some s) b)))).
    { destruct (m =? 0); [rewrite for_each_skip in H|]; by injection H. }
    subst b'. simpl. split_and!; try done. right. split_and!; try done.
    right. by exists m.
  - injection H as <-. simpl. split_and!; try done. right. split_and!; try done.
    by left.
Qed.

(** ** Invariants of the clicks

    A relation that is reflexive and transitive and holds across the
    writes of [reveal] holds across every reveal click, cascade included. *)

Section click_invariant.
Context (R : MineSweeperBoard → MineSweeperBoard → Prop).
Context (Rrefl : ∀ b, R b b).
Context (Rtrans : ∀ b1 b2 b3, R b1 b2 → R b2 b3 → R b1 b3).
Context (Rreveal : ∀ b p s b',
            grid b !! p = Some s → s ≠ _OPEN → Z.land s _FLAGGED ≠ _FLAGGED →
            board_of (reveal skip b p s) = Some b' → R b b').

Lemma for_each_invariant act ns b b' :
  (∀ b0 n b1, board_of (act b0 n) = Some b1 → R b0 b1) →
  board_of (for_each act b ns) = Some b' → R b b'.
Proof.
  intros Hact. revert b. induction ns as [|n ns IH]; intros b; simpl.
  - intros [= <-]. apply Rrefl.
  - destruct (act b n) as [b1|b1|] eqn:Hn; simpl; [| |done].
    + intros H. apply (Rtrans _ b1); [|by apply IH]. apply (Hact b n). by rewrite Hn.
    + intros [= <-]. apply (Hact b n). by rewrite Hn.
Qed.

Lemma reveal_click_invariant fuel b p b' :
  board_of (action fuel b p false) = Some b' → R b b'.
Proof.
  revert b p b'. induction fuel as [|fuel IH]; intros b p b'; [done|].
  simpl. destruct (grid b !! p) as [s|] eqn:Hp; [|intros [= <-]; apply Rrefl].
  destruct (Z.eqb_spec s _OPEN) as [|Hs]; [intros [= <-]; apply Rrefl|].
  destruct (Z.eqb_spec (Z.land s _FLAGGED) _FLAGGED) as [|Hf];
    [intros [= <-]; apply Rrefl|].
  destruct (reveal_head (λ b0 n, action fuel b0 n false) b p s)
    as [->|(b1 & H1 & ->)].
  - by apply Rreveal.
  - intros H. apply (Rtrans _ b1).
    + apply (Rreveal b p s); [done..|]. by rewrite H1.
    + eapply for_each_invariant; [|done]. intros b0 n b2. apply IH.
Qed.
End click_invariant.

(** ** Mine bits and open bits *)

Lemma testbit_lor_OPEN s n :
  0 ≤ n → Z.testbit (Z.lor s _OPEN) n = Z.testbit s n || (n =? 2).
Proof.
  intros Hn. rewrite Z.lor_spec. change _OPEN with (2 ^ 2).
  rewrite Z.pow2_bits_eqb, (Z.eqb_sym 2 n) by lia. done.
Qed.

Lemma land_MINE_testbit s : Z.land s _MINE = Z.b2z (Z.testbit s 0).
Proof.
  change _MINE with (Z.ones 1). rewrite Z.land_ones by lia.
  change (2 ^ 1) with 2. symmetry. apply Z.bit0_mod.
Qed.

Lemma bits_kept_refl b : bits_kept b b.
Proof. split_and!; try done. intros q s Hq. by exists s. Qed.

Lemma bits_kept_trans b1 b2 b3 : bits_kept b1 b2 → bits_kept b2 b3 → bits_kept b1 b3.
Proof.
  intros (C1 & L1 & S1 & R1 & N1 & B1) (C2 & L2 & S2 & R2 & N2 & B2).
  split_and!; [congruence..|lia|auto|].
  intros q s Hq. destruct (B1 q s Hq) as (s1 & Hq1 & E1 & O1).
  destruct (B2 q s1 Hq1) as (s2 & Hq2 & E2 & O2).
  exists s2. split_and!; [done|congruence|auto].
Qed.

(** One cell rewritten with the same mine bit and no open bit lost. *)
Lemma bits_kept_insert b b' p cur t :
  grid b !! p = Some cur → grid b' = <[p := t]> (grid b) →
  Z.testbit t 0 = Z.testbit cur 0 →
  (Z.testbit cur 2 = true → Z.testbit t 2 = true) →
  cols b' = cols b → lines b' = lines b → safe_cells b' = safe_cells b →
  cells_revealed b ≤ cells_revealed b' →
  bits_kept b b'.
Proof.
  intros Hp Hg E O Hc Hl Hs Hr. split_and!; try done.
  - intros q Hq. rewrite Hg, lookup_insert_ne; [done|congruence].
  - intros q s Hq. rewrite Hg. destruct (decide (q = p)) as [->|Hne].
    + rewrite lookup_insert_eq. exists t. rewrite Hp in Hq. injection Hq as <-. done.
    + rewrite lookup_insert_ne by done. by exists s.
Qed.

Lemma reveal_skip_bits_kept b p s b' :
  board_of (reveal skip b p s) = Some b' → bits_kept b b'.
Proof.
  intros [[_ ->]|(cur & Hp & Hg & _ & Hc & Hl & _ & Hs & Hr)]%reveal_skip_cases.
  - split_and!; try done. intros q t Hq. by exists t.
  - apply (bits_kept_insert b b' p cur (Z.lor cur _OPEN)); try done.
    + rewrite testbit_lor_OPEN by lia. apply orb_false_r.
    + intros _. rewrite testbit_lor_OPEN by lia. apply orb_true_r.
    + destruct Hr as [(_ & -> & _)|(_ & -> & _)]; lia.
Qed.

Lemma flag_bits_kept b p s b' :
  board_of (flag b p s) = Some b' → bits_kept b b'.
Proof.
  unfold flag. destruct (grid b !! p) as [cur|] eqn:Hp;
    [|intros [= <-]; apply bits_kept_refl].
  simpl. rewrite lookup_insert_eq.
  set (t := if Z.land s _FLAGGED =? _FLAGGED then _ else _).
  assert (Ht : ∀ k, 0 ≤ k → k ≠ 1 → Z.testbit t k = Z.testbit cur k).
  { intros k Hk Hk1. unfold t. destruct (_ =? _FLAGGED).
    - rewrite testbit_lxor_FLAGGED by done.
      destruct (Z.eqb_spec k 1); [done|]. apply xorb_false_r.
    - rewrite testbit_lor_FLAGGED by done.
      destruct (Z.eqb_spec k 1); [done|]. apply orb_false_r. }
  intros H. apply (bits_kept_insert b b' p cur t); try done.
  - repeat case_match; by injection H as <-.
  - by apply Ht.
  - intros E. rewrite Ht by lia. done.
  - repeat case_match; by injection H as <-.
  - repeat case_match; by injection H as <-.
  - repeat case_match; by injection H as <-.
  - repeat case_match; injection H as <-; simpl; lia.
Qed.

Lemma action_bits_kept fuel b p flag_arg b' :
  board_of (action fuel b p flag_arg) = Some b' → bits_kept b b'.
Proof.
  destruct flag_arg.
  - destruct fuel as [|fuel]; [done|]. simpl.
    destruct (grid b !! p) as [s|]; [|intros [= <-]; apply bits_kept_refl].
    destruct (s =? _OPEN); [intros [= <-]; apply bits_kept_refl|].
    apply flag_bits_kept.
  - apply reveal_click_invariant.
    + apply bits_kept_refl.
    + apply bits_kept_trans.
    + intros b0 p0 s0 b1 _ _ _. apply reveal_skip_bits_kept.
Qed.

Lemma reveal_bits_kept fuel b p s b' :
  board_of (reveal (λ b0 n, action fuel b0 n false) b p s) = Some b' →
  bits_kept b b'.
Proof.
  destruct (reveal_head (λ b0 n, action fuel b0 n false) b p s)
    as [->|(b1 & H1 & ->)]; [apply reveal_skip_bits_kept|].
  intros H. apply (bits_kept_trans _ b1).
  - apply (reveal_skip_bits_kept b p s). by rewrite H1.
  - eapply (for_each_invariant bits_kept bits_kept_refl bits_kept_trans); [|done].
    intros b0 n b2. apply action_bits_kept.
Qed.

Lemma open_mines_bits_kept b : bits_kept b (open_mines b).
Proof.
  split_and!; try done.
  - intros q Hq. by rewrite open_mines_lookup, Hq.
  - intros q s Hq. rewrite open_mines_lookup, Hq.
    destruct (decide (Z.land s _MINE = _MINE)) as [E|E].
    + exists _OPEN_MINE. split; [simpl; by rewrite decide_True|].
      apply is_mine_testbit in E. by rewrite E.
    + exists s. split; [simpl; by rewrite decide_False|done].
Qed.

(** X9: no operation changes the mine bit of a cell or clears an open bit,
    adds or removes a key, changes [cols], [lines] or [safe_cells], or
    lowers [cells_revealed]: this holds for [action] with either flag
    argument, for [flag] and [reveal] called directly with any state
    argument, and for [open_mines], whether the call returns or raises. *)
Theorem operations_keep_bits :
  (∀ fuel b p flag_arg b',
      board_of (action fuel b p flag_arg) = Some b' → bits_kept b b') ∧
  (∀ b p state b', board_of (flag b p state) = Some b' → bits_kept b b') ∧
  (∀ fuel b p state b',
      board_of (reveal (λ b0 n, action fuel b0 n false) b p state) = Some b' →
      bits_kept b b') ∧
  (∀ b, bits_kept b (open_mines b)).
Proof.
  split_and!.
  - apply action_bits_kept.
  - apply flag_bits_kept.
  - apply reveal_bits_kept.
  - apply open_mines_bits_kept.
Qed.

Lemma reachable_bits_kept cols lines mines b :
  reachable cols lines mines b → bits_kept (random cols lines mines) b.
Proof.
  induction 1 as [|b fuel p fl b' _ IH H|b p s b' _ IH H|b fuel p s b' _ IH H|b _ IH].
  - apply bits_kept_refl.
  - eapply bits_kept_trans; [done|]. by eapply action_bits_kept.
  - eapply bits_kept_trans; [done|]. by eapply flag_bits_kept.
  - eapply bits_kept_trans; [done|]. by eapply reveal_bits_kept.
  - eapply bits_kept_trans; [done|]. apply open_mines_bits_kept.
Qed.

Lemma bits_kept_mined b b' : bits_kept b b' → mined_cells b' = mined_cells b.
Proof.
  intros (_ & _ & _ & _ & N & B). apply set_eq. intros q.
  rewrite !elem_of_mined_cells. split.
  - intros (s' & Hq' & E'). destruct (grid b !! q) as [s|] eqn:Hq.
    + destruct (B q s Hq) as (t & Ht & E & _). exists s. split; [done|].
      rewrite Hq' in Ht. injection Ht as <-.
      apply is_mine_testbit. apply is_mine_testbit in E'. congruence.
    + rewrite (N q Hq) in Hq'. done.
  - intros (s & Hq & E). destruct (B q s Hq) as (t & Ht & E' & _).
    exists t. split; [done|].
    apply is_mine_testbit. apply is_mine_testbit in E. congruence.
Qed.

(** X10: the mines never move: on every board reached from
    [random(cols, lines, _)] with a sample of distinct grid cells, through
    any operations, the cells with the mine bit are the sampled cells, and
    [safe_cells] is still [cols * lines] minus their number. *)
Theorem mines_never_move (cols lines : Z) (mines : list (Z * Z)) (b : MineSweeperBoard) :
  is_sample cols lines mines → reachable cols lines mines b →
  mined_cells b = list_to_set mines ∧
  (∀ q s, grid b !! q = Some s → (Z.land s _MINE = _MINE ↔ q ∈ mines)) ∧
  safe_cells b = cols * lines - Z.of_nat (length mines).
Proof.
  intros Hs Hr. apply reachable_bits_kept in Hr.
  pose proof (bits_kept_mined _ _ Hr) as Hm. rewrite random_mined in Hm by done.
  split_and!; [done| |by destruct Hr as (_ & _ & -> & _)].
  intros q s Hq. rewrite <- (elem_of_list_to_set (C := gset (Z * Z))), <- Hm.
  rewrite elem_of_mined_cells. split; [intros E; by exists s|].
  intros (t & Ht & E). congruence.
Qed.

Lemma mines_never_move_witness :
  mined_cells (open_mines board_3x3) = list_to_set [(1, 1)].
Proof.
  apply (mines_never_move 3 3 [(1, 1)]).
  - split; [by apply NoDup_singleton|]. intros p ->%list_elem_of_singleton.
    apply elem_of_cells. simpl. lia.
  - apply reachable_open_mines, reachable_random.
Defined.

(** ** The stored hints *)

Lemma count_mines_bits_kept b b' ns :
  bits_kept b b' → count_mines (grid b') ns = count_mines (grid b) ns.
Proof.
  intros (_ & _ & _ & _ & N & B). apply count_mines_same. intros q.
  destruct (grid b !! q) as [s|] eqn:Hq.
  - destruct (B q s Hq) as (s' & -> & E & _). simpl.
    by rewrite !land_MINE_testbit, E.
  - by rewrite (N q Hq).
Qed.

Lemma hints_ok_kept b b' :
  bits_kept b b' → hints_ok b →
  (∀ q h, hints b' !! q = Some h →
          hints b !! q = Some h ∨
          (count_mines (grid b') (get_neighbors b' q) = Some h ∧
           ∃ s, grid b' !! q = Some s ∧ Z.land s _OPEN = _OPEN)) →
  hints_ok b'.
Proof.
  intros K Hok Hnew q h Hq. destruct (Hnew q h Hq) as [Hold|?]; [|done].
  destruct (Hok q h Hold) as (Hc & s & Hs & Ho).
  pose proof K as (C & L & _ & _ & _ & B). split.
  - by rewrite (get_neighbors_dims b b' q C L), (count_mines_bits_kept b b' _ K).
  - destruct (B q s Hs) as (s' & Hs' & _ & O). exists s'. split; [done|].
    apply is_open_testbit, O. by apply is_open_testbit.
Qed.

Lemma reveal_skip_hints_ok b p s b' :
  board_of (reveal skip b p s) = Some b' → hints_ok b → hints_ok b'.
Proof.
  intros H Hok. pose proof (reveal_skip_bits_kept b p s b' H) as K.
  apply (hints_ok_kept b b' K Hok). intros q h Hq.
  apply reveal_skip_cases in H
    as [[_ ->]|(cur & Hp & Hg & _ & _ & _ & _ & _ & Hr)]; [by left|].
  destruct Hr as [(_ & _ & E)|(_ & _ & [[_ E]|(m & Hm & E)])];
    [left; congruence..|].
  rewrite E in Hq. destruct (decide (q = p)) as [->|Hne].
  - rewrite lookup_insert_eq in Hq. injection Hq as <-. right. split; [done|].
    exists (Z.lor cur _OPEN). split; [by rewrite Hg, lookup_insert_eq|].
    apply is_open_testbit. rewrite testbit_lor_OPEN by lia. apply orb_true_r.
  - rewrite lookup_insert_ne in Hq by done. by left.
Qed.

Lemma flag_hints_ok b p s b' :
  board_of (flag b p s) = Some b' → hints_ok b → hints_ok b'.
Proof.
  intros H Hok. apply (hints_ok_kept b b' (flag_bits_kept b p s b' H) Hok).
  intros q h Hq. left. revert H Hq. unfold flag.
  repeat case_match; intros [= <-]; done.
Qed.

Lemma action_hints_ok fuel b p flag_arg b' :
  board_of (action fuel b p flag_arg) = Some b' → hints_ok b → hints_ok b'.
Proof.
  destruct flag_arg.
  - destruct fuel as [|fuel]; [done|]. simpl.
    destruct (grid b !! p) as [s|]; [|by intros [= <-]].
    destruct (s =? _OPEN); [by intros [= <-]|]. apply flag_hints_ok.
  - apply (reveal_click_invariant (λ b b', hints_ok b → hints_ok b')); [auto..|].
    intros b0 p0 s0 b1 _ _ _. apply reveal_skip_hints_ok.
Qed.

Lemma reveal_hints_ok fuel b p s b' :
  board_of (reveal (λ b0 n, action fuel b0 n false) b p s) = Some b' →
  hints_ok b → hints_ok b'.
Proof.
  destruct (reveal_head (λ b0 n, action fuel b0 n false) b p s)
    as [->|(b1 & H1 & ->)]; [apply reveal_skip_hints_ok|].
  intros H Hok.
  assert (Hok1 : hints_ok b1).
  { apply (reveal_skip_hints_ok b p s); [by rewrite H1|done]. }
  revert Hok1.
  eapply (for_each_invariant (λ b b', hints_ok b → hints_ok b')); [auto..| |done].
  intros b0 n b2. apply action_hints_ok.
Qed.

(** X11: the hints are always right: on every board reached from a
    construction through any operations, each entry of [hints] is the
    number of neighbors of its cell that carry the mine bit, lies between 0
    and 8, and belongs to a cell with the open bit. *)
Theorem hints_always_right (cols lines : Z) (mines : list (Z * Z)) (b : MineSweeperBoard) :
  reachable cols lines mines b →
  ∀ q h, hints b !! q = Some h →
         count_mines (grid b) (get_neighbors b q) = Some h ∧
         0 ≤ h ≤ 8 ∧
         ∃ s, grid b !! q = Some s ∧ Z.land s _OPEN = _OPEN.
Proof.
  intros Hr. assert (Hok : hints_ok b).
  { induction Hr as [|b fuel p fl b' _ IH H|b p s b' _ IH H|b fuel p s b' _ IH H|b _ IH].
    - intros q h Hq. done.
    - by eapply action_hints_ok.
    - by eapply flag_hints_ok.
    - by eapply reveal_hints_ok.
    - apply (hints_ok_kept b _ (open_mines_bits_kept b) IH). intros q h Hq. by left. }
  intros q h Hq. destruct (Hok q h Hq) as (Hc & Hs).
  split; [done|]. split; [|done]. by apply (hint_range b q).
Qed.

Lemma hints_always_right_witness :
  ∃ b', action 1 board_3x3 (0, 0) false = Done b' ∧
        hints b' !! (0, 0) = Some 1 ∧
        count_mines (grid b') (get_neighbors b' (0, 0)) = Some 1.
Proof.
  eexists. split; [apply board_3x3_first_click|].
  split; [vm_compute; reflexivity|].
  eapply (hints_always_right 3 3 [(1, 1)]).
  - eapply (reachable_action _ _ _ _ 1 (0, 0) false); [apply reachable_random|].
    fold board_3x3. by rewrite board_3x3_first_click.
  - vm_compute. reflexivity.
Defined.

(** ** What a reveal click touches *)

Lemma reveal_frame_refl b : reveal_frame b b.
Proof. split_and!; try done. by left. Qed.

Lemma reveal_frame_trans b1 b2 b3 :
  reveal_frame b1 b2 → reveal_frame b2 b3 → reveal_frame b1 b3.
Proof.
  intros (C1 & L1 & M1 & S1 & F1) (C2 & L2 & M2 & S2 & F2).
  split_and!; [congruence..|].
  intros q. destruct (F1 q) as [E1|(s & Hs & Hf & E1)], (F2 q) as [E2|(t & Ht & Hg & E2)].
  - left. congruence.
  - right. exists t. split_and!; [congruence|done..].
  - right. exists s. split_and!; [done..|congruence].
  - right. exists s. split_and!; [done..|].
    rewrite E1 in Ht. injection Ht as <-.
    by rewrite E2, <- Z.lor_assoc, Z.lor_diag.
Qed.

Lemma reveal_skip_frame b p s b' :
  grid b !! p = Some s → Z.land s _FLAGGED ≠ _FLAGGED →
  board_of (reveal skip b p s) = Some b' → reveal_frame b b'.
Proof.
  intros Hp Hf [[E _]|(cur & Hcur & Hg & _ & Hc & Hl & Hm & Hs & _)]%reveal_skip_cases;
    [congruence|].
  rewrite Hp in Hcur. injection Hcur as <-.
  split_and!; try done. intros q. rewrite Hg.
  destruct (decide (q = p)) as [->|Hne].
  - right. exists s. by rewrite lookup_insert_eq.
  - left. by rewrite lookup_insert_ne.
Qed.

(** X12: a reveal click, cascade included and whether it returns or
    raises, changes neither [mines_left] nor [safe_cells], [cols] or
    [lines]; the only change to a cell is that an unflagged cell gains the
    open bit; every flagged cell keeps its state. *)
Theorem reveal_click_frame (fuel : nat) (b : MineSweeperBoard) (p : Z * Z)
    (b' : MineSweeperBoard) :
  board_of (action fuel b p false) = Some b' →
  mines_left b' = mines_left b ∧ safe_cells b' = safe_cells b ∧
  cols b' = cols b ∧ lines b' = lines b ∧
  (∀ q, grid b' !! q = grid b !! q ∨
        ∃ s, grid b !! q = Some s ∧ Z.land s _FLAGGED ≠ _FLAGGED ∧
             grid b' !! q = Some (Z.lor s _OPEN)) ∧
  (∀ q s, grid b !! q = Some s → Z.land s _FLAGGED = _FLAGGED →
          grid b' !! q = Some s).
Proof.
  intros H.
  assert (F : reveal_frame b b').
  { revert H. apply reveal_click_invariant.
    - apply reveal_frame_refl.
    - apply reveal_frame_trans.
    - intros b0 p0 s0 b1 Hp _ Hf. by apply reveal_skip_frame. }
  destruct F as (C & L & M & S & F). split_and!; try done.
  intros q s Hq Hf. destruct (F q) as [E|(t & Ht & Hn & _)]; congruence.
Qed.

Lemma reveal_click_frame_witness :
  ∃ b2, action 5 (set_grid (<[(1, 0) := _FLAGGED]> (grid board_3x1)) board_3x1)
               (0, 0) false = Done b2 ∧
        mines_left b2 = mines_left board_3x1 ∧
        grid b2 !! (1, 0) = Some _FLAGGED.
Proof.
  destruct (action 5 (set_grid (<[(1, 0) := _FLAGGED]> (grid board_3x1)) board_3x1)
                   (0, 0) false) as [b2|b2|] eqn:H;
    [|vm_compute in H; discriminate..].
  exists b2. split; [done|].
  destruct (reveal_click_frame 5
              (set_grid (<[(1, 0) := _FLAGGED]> (grid board_3x1)) board_3x1)
              (0, 0) b2) as (H1 & _ & _ & _ & _ & H6); [by rewrite H|].
  split; [done|]. apply H6; vm_compute; reflexivity.
Defined.

(** ** Counting cells by state *)

Lemma cells_in_state_insert_size b b' p s0 t s :
  grid b !! p = Some s0 → grid b' = <[p := t]> (grid b) →
  Z.of_nat (size (cells_in_state s b')) =
    Z.of_nat (size (cells_in_state s b))
    + (if decide (t = s) then 1 else 0) - (if decide (s0 = s) then 1 else 0).
Proof.
  intros Hp Hg.
  assert (Hne : ∀ q, q ≠ p → q ∈ cells_in_state s b' ↔ q ∈ cells_in_state s b).
  { intros q Hq. by rewrite !elem_of_cells_in_state, Hg, lookup_insert_ne. }
  assert (Hp' : p ∈ cells_in_state s b' ↔ t = s).
  { rewrite elem_of_cells_in_state, Hg, lookup_insert_eq. split; congruence. }
  assert (Hp0 : p ∈ cells_in_state s b ↔ s0 = s).
  { rewrite elem_of_cells_in_state, Hp. split; congruence. }
  destruct (decide (t = s)) as [Ht|Ht], (decide (s0 = s)) as [Hs|Hs].
  - replace (cells_in_state s b') with (cells_in_state s b); [lia|].
    apply set_eq. intros q. destruct (decide (q = p)) as [->|Hq]; [tauto|].
    symmetry. by apply Hne.
  - replace (cells_in_state s b') with ({[p]} ∪ cells_in_state s b).
    + rewrite size_union, size_singleton; [lia|].
      intros q Hq1 Hq2. apply elem_of_singleton in Hq1 as ->. tauto.
    + apply set_eq. intros q. rewrite elem_of_union, elem_of_singleton.
      destruct (decide (q = p)) as [->|Hq]; [tauto|]. rewrite Hne by done. tauto.
  - replace (cells_in_state s b) with ({[p]} ∪ cells_in_state s b').
    + rewrite size_union, size_singleton; [lia|].
      intros q Hq1 Hq2. apply elem_of_singleton in Hq1 as ->. tauto.
    + apply set_eq. intros q. rewrite elem_of_union, elem_of_singleton.
      destruct (decide (q = p)) as [->|Hq]; [tauto|]. rewrite Hne by done. tauto.
  - replace (cells_in_state s b') with (cells_in_state s b); [lia|].
    apply set_eq. intros q. destruct (decide (q = p)) as [->|Hq]; [tauto|].
    symmetry. by apply Hne.
Qed.

Lemma lor_OPEN_ne_3 s : Z.lor s _OPEN ≠ 3.
Proof.
  intros E. assert (H : Z.testbit (Z.lor s _OPEN) 2 = true).
  { rewrite testbit_lor_OPEN by lia. apply orb_true_r. }
  rewrite E in H. done.
Qed.

Lemma reveal_frame_flagged_mines b b' :
  reveal_frame b b' → cells_in_state 3 b' = cells_in_state 3 b.
Proof.
  intros (_ & _ & _ & _ & F). apply set_eq. intros q.
  rewrite !elem_of_cells_in_state.
  destruct (F q) as [->|(s & Hs & Hf & ->)]; [done|]. rewrite Hs. split.
  - intros [= E]. by apply lor_OPEN_ne_3 in E.
  - intros [= ->]. by destruct Hf.
Qed.

Lemma played_reachable cols lines mines b :
  played cols lines mines b → reachable cols lines mines b.
Proof.
  induction 1 as [|b fuel p fl b' _ IH H]; [apply reachable_random|].
  by eapply reachable_action.
Qed.

Lemma played_mines_left cols lines mines b :
  played cols lines mines b →
  mines_left b + Z.of_nat (size (cells_in_state 3 b)) = Z.of_nat (length mines).
Proof.
  induction 1 as [|b fuel p fl b' _ IH H].
  - replace (cells_in_state 3 (random cols lines mines)) with (∅ : gset (Z * Z)).
    { rewrite size_empty. simpl. lia. }
    symmetry. apply set_eq. intros q. rewrite elem_of_cells_in_state, random_lookup.
    split; [|by intros ?%not_elem_of_empty]. case_decide; [|done].
    case_bool_decide; discriminate.
  - destruct fl.
    + destruct fuel as [|fuel]; [done|].
      destruct (grid b !! p) as [s|] eqn:Hp; [|simpl in H; rewrite Hp in H; by injection H as <-].
      destruct (decide (s = _OPEN)) as [->|Hs].
      { rewrite (action_open_noop _ _ _ _ Hp) in H. by injection H as <-. }
      rewrite (action_flag_eq fuel b p s Hp Hs) in H. injection H as <-.
      match goal with
      | |- context [cells_in_state 3 ?B] =>
          rewrite (cells_in_state_insert_size b B p s (Z.lxor s _FLAGGED) 3 Hp eq_refl)
      end.
      simpl. destruct (Z.eqb_spec s _MINE) as [->|N1]; [simpl; lia|].
      destruct (Z.eqb_spec s 3) as [->|N3]; [simpl; lia|].
      rewrite (decide_False (P := s = 3)) by done.
      rewrite decide_False; [lia|]. intros E. apply N1.
      by rewrite <- (lxor_FLAGGED_twice s), E.
    + assert (F : reveal_frame b b').
      { revert H. apply reveal_click_invariant.
        - apply reveal_frame_refl.
        - apply reveal_frame_trans.
        - intros b0 p0 s0 b1 Hp _ Hf. by apply reveal_skip_frame. }
      rewrite (reveal_frame_flagged_mines b b' F).
      destruct F as (_ & _ & -> & _). done.
Qed.

(** X13: through any sequence of clicks on a board built by [random] from a
    sample of distinct grid cells, [mines_left] is the number of mines
    minus the number of cells in state [_MINE | _FLAGGED]; so it stays
    between 0 and the number of mines, and the win test [mines_left <= 0]
    of the game loop holds exactly when every mine is flagged and closed. *)
Theorem mines_left_counts_flagged_mines (cols lines : Z) (mines : list (Z * Z))
    (b : MineSweeperBoard) :
  is_sample cols lines mines → played cols lines mines b →
  mines_left b = Z.of_nat (length mines)
                 - Z.of_nat (size (cells_in_state (Z.lor _MINE _FLAGGED) b)) ∧
  0 ≤ mines_left b ≤ Z.of_nat (length mines) ∧
  (mines_left b ≤ 0 ↔
   ∀ q, q ∈ mines → grid b !! q = Some (Z.lor _MINE _FLAGGED)).
Proof.
  intros Hs Hp. change (Z.lor _MINE _FLAGGED) with 3.
  pose proof (played_mines_left _ _ _ _ Hp) as Hcount.
  destruct (mines_never_move cols lines mines b Hs (played_reachable _ _ _ _ Hp))
    as (Hm & _ & _).
  assert (Hsub : cells_in_state 3 b ⊆ list_to_set mines).
  { intros q Hq. rewrite <- Hm.
    apply elem_of_cells_in_state in Hq. apply elem_of_mined_cells. by exists 3. }
  assert (Hlen : size (list_to_set mines : gset (Z * Z)) = length mines)
    by (apply size_list_to_set, Hs).
  pose proof (subseteq_size _ _ Hsub) as Hle. rewrite Hlen in Hle.
  split_and!; [lia..|]. split.
  - intros H0 q Hq. apply elem_of_cells_in_state.
    rewrite (set_subseteq_size_eq _ _ Hsub); [by apply elem_of_list_to_set|].
    rewrite Hlen. lia.
  - intros Hall.
    assert (list_to_set mines ⊆ cells_in_state 3 b).
    { intros q Hq. apply elem_of_cells_in_state, Hall. by apply elem_of_list_to_set in Hq. }
    pose proof (subseteq_size _ _ H) as Hge. rewrite Hlen in Hge. lia.
Qed.

Lemma mines_left_counts_flagged_mines_witness :
  ∃ b1, action 1 board_3x3 (1, 1) true = Done b1 ∧
        mines_left b1 = 0 ∧ grid b1 !! (1, 1) = Some 3.
Proof.
  destruct (action 1 board_3x3 (1, 1) true) as [b1|b1|] eqn:H;
    [|vm_compute in H; discriminate..].
  exists b1. split; [done|].
  destruct (mines_left_counts_flagged_mines 3 3 [(1, 1)] b1) as (H1 & H2 & H3).
  - split; [by apply NoDup_singleton|]. intros p ->%list_elem_of_singleton.
    apply elem_of_cells. simpl. lia.
  - eapply (played_action _ _ _ _ 1 (1, 1) true); [apply played_random|].
    fold board_3x3. by rewrite H.
  - assert (Hg : grid b1 !! (1, 1) = Some 3).
    { vm_compute in H. injection H as <-. vm_compute. reflexivity. }
    split; [|done]. apply Z.le_antisymm; [|lia]. apply H3.
    intros q ->%list_elem_of_singleton. done.
Defined.

(** ** The game loop's [update] and the custom setup *)

Lemma set_last_clicked_open_mines l b :
  set_last_clicked l (open_mines b) = open_mines (set_last_clicked l b).
Proof. by apply board_eq. Qed.

(** X14: [update] is idempotent: a second call in a row changes nothing
    more (once a round is over, every frame finds the same state). *)
Theorem update_idempotent (g : MineSweeperGame) : update (update g) = update g.
Proof.
  unfold update.
  destruct ((mines_left (board g) <=? 0)
            || (cells_revealed (board g) =? safe_cells (board g))) eqn:Hw; simpl.
  - rewrite Hw. simpl.
    by rewrite set_last_clicked_open_mines, open_mines_idempotent.
  - destruct (bool_decide (last_clicked (board g) = Some _MINE)) eqn:Hl; simpl.
    + rewrite Hw. simpl. done.
    + rewrite Hw, Hl. done.
Qed.

(** X15: after [update], [last_clicked] is never [_MINE] (the loss signal
    is consumed) and play is never switched back on; if the round was won
    or lost, play is off, every cell with the mine bit is in state
    [_OPEN_MINE] and the counters are as before; otherwise the board is
    untouched. *)
Theorem update_ends_round (g : MineSweeperGame) :
  last_clicked (board (update g)) ≠ Some _MINE ∧
  (playing (update g) = true → playing g = true) ∧
  (won (update g) = true ↔
   mines_left (board g) ≤ 0 ∨ cells_revealed (board g) = safe_cells (board g)) ∧
  ((won (update g) = true ∨ last_clicked (board g) = Some _MINE) →
   playing (update g) = false ∧
   (∀ q s, grid (board g) !! q = Some s → Z.land s _MINE = _MINE →
           grid (board (update g)) !! q = Some _OPEN_MINE) ∧
   (∀ q s, grid (board g) !! q = Some s → Z.land s _MINE ≠ _MINE →
           grid (board (update g)) !! q = Some s) ∧
   mines_left (board (update g)) = mines_left (board g) ∧
   cells_revealed (board (update g)) = cells_revealed (board g)) ∧
  (won (update g) = false → last_clicked (board g) ≠ Some _MINE →
   board (update g) = board g ∧ playing (update g) = playing g).
Proof.
  unfold update.
  assert (Hwon : (mines_left (board g) <=? 0)
                 || (cells_revealed (board g) =? safe_cells (board g)) = true ↔
                 mines_left (board g) ≤ 0 ∨ cells_revealed (board g) = safe_cells (board g)).
  { rewrite orb_true_iff, Z.leb_le, Z.eqb_eq. done. }
  destruct ((mines_left (board g) <=? 0)
            || (cells_revealed (board g) =? safe_cells (board g))) eqn:Hw; simpl.
  - split_and!; try done.
    intros _. split; [done|].
    destruct (open_mines_spec (set_last_clicked None (board g))) as (H1 & H2 & _).
    split_and!; try done.
  - case_bool_decide as Hl; simpl.
    + split_and!; try done.
      intros _. split; [done|].
      destruct (open_mines_spec (set_last_clicked None (board g))) as (H1 & H2 & _).
      split_and!; try done.
    + split_and!; try done. intros [?|?]; done.
Qed.

(** X16: the test of [from_custom] on the user's values never fires:
    whatever integers are entered (above the maxima 30, 24, 667, or
    negative), no [ValueError] is raised by it. *)
Theorem custom_input_never_rejected (user_values : list Z) :
  custom_input_rejected user_values = false.
Proof.
  unfold custom_input_rejected, maximum_values.
  destruct user_values as [|a [|b [|c l]]]; simpl; try done;
    repeat match goal with
           | |- context [(?x <? ?y)] => destruct (Z.ltb_spec x y)
           end; simpl; try done; lia.
Qed.

(** ** Counting the revealed cells *)

Lemma for_each_count (act : MineSweeperBoard → Z * Z → outcome) :
  (∀ b n s b', states_valid b → grid b !! n = Some s → Z.land s _MINE ≠ _MINE →
               act b n = Done b' →
               grid_step b b' ∧
               cells_revealed b' + Z.of_nat (size (safe_set b'))
               = cells_revealed b + Z.of_nat (size (safe_set b))) →
  ∀ ns b b', states_valid b →
             (∀ n, n ∈ ns → ∃ s, grid b !! n = Some s ∧ Z.land s _MINE ≠ _MINE) →
             for_each act b ns = Done b' →
             grid_step b b' ∧
             cells_revealed b' + Z.of_nat (size (safe_set b'))
             = cells_revealed b + Z.of_nat (size (safe_set b)).
Proof.
  intros Hact ns. induction ns as [|n ns IH]; intros b b' Hv Hns; simpl.
  - intros [= <-]. split; [apply grid_step_refl|done].
  - destruct (Hns n) as (s & Hn & Hm); [by left|].
    destruct (act b n) as [b1|b1|] eqn:Hb1; [|done..].
    destruct (Hact b n s b1 Hv Hn Hm Hb1) as [S1 E1]. intros H.
    destruct (IH b1 b') as [S2 E2]; [|
      |done|split; [by eapply grid_step_trans|lia]].
    + by apply (grid_step_valid _ _ S1).
    + intros n' Hin. destruct (Hns n') as (s' & Hn' & Hm'); [by right|].
      pose proof (grid_step_mines _ _ S1 n') as E. rewrite Hn' in E.
      destruct (grid b1 !! n') as [t|]; [|done]. exists t. split; [done|].
      simpl in E. injection E as ->. done.
Qed.

(** A reveal click on a cell without a mine: [cells_revealed] goes up by
    the number of cells that were opened. *)
Lemma action_count (fuel : nat) :
  ∀ b p s b', states_valid b → grid b !! p = Some s → Z.land s _MINE ≠ _MINE →
              action fuel b p false = Done b' →
              grid_step b b' ∧
              cells_revealed b' + Z.of_nat (size (safe_set b'))
              = cells_revealed b + Z.of_nat (size (safe_set b)).
Proof.
  induction fuel as [|fuel IH]; intros b p s b' Hv Hp Hm; [done|].
  simpl. rewrite Hp.
  destruct (valid_no_mine s (Hv _ _ Hp) Hm) as [->|[->|[->| ->]]]; simpl;
    try (intros [= <-]; split; [apply grid_step_refl|done]).
  rewrite (reveal_safe_eq _ b p Hp), (count_mines_open b p _ Hp).
  destruct (count_mines (grid b) (get_neighbors b p)) as [m|] eqn:Hcnt; [|done].
  set (b0 := set_hints _ _).
  assert (Hg0 : grid b0 = <[p := _OPEN]> (grid b)) by done.
  assert (S0 : grid_step b b0).
  { split_and!; [done..|]. intros q. rewrite Hg0.
    destruct (decide (q = p)) as [->|Hq].
    - right. by rewrite lookup_insert_eq.
    - left. by rewrite lookup_insert_ne. }
  assert (E0 : cells_revealed b0 + Z.of_nat (size (safe_set b0))
               = cells_revealed b + Z.of_nat (size (safe_set b))).
  { change (safe_set b0) with (cells_in_state _SAFE b0).
    change (safe_set b) with (cells_in_state _SAFE b).
    rewrite (cells_in_state_insert_size b b0 p _SAFE _OPEN _SAFE Hp Hg0).
    rewrite decide_False, decide_True by done. unfold b0. simpl. lia. }
  simpl. destruct (Z.eqb_spec m 0) as [->|Hm0].
  - intros H.
    destruct (for_each_count (λ b1 n, action fuel b1 n false) IH
                (get_neighbors b p) b0 b') as [S1 E1]; [| |done|].
    + by apply (grid_step_valid _ _ S0).
    + intros n Hn. rewrite Hg0.
      apply (count_mines_zero _ (get_neighbors b p)); [|done].
      by rewrite count_mines_open.
    + split; [by eapply grid_step_trans|lia].
  - by intros [= <-].
Qed.

Lemma grid_step_flagged b b' :
  grid_step b b' → cells_in_state _FLAGGED b' = cells_in_state _FLAGGED b.
Proof.
  intros (_ & _ & F). apply set_eq. intros q. rewrite !elem_of_cells_in_state.
  destruct (F q) as [->|[-> ->]]; [done|]. split; discriminate.
Qed.

Lemma valid_toggle s : 0 ≤ s < 8 → 0 ≤ Z.lxor s _FLAGGED < 8.
Proof.
  intros Hs.
  assert (s = 0 ∨ s = 1 ∨ s = 2 ∨ s = 3 ∨ s = 4 ∨ s = 5 ∨ s = 6 ∨ s = 7)
    as [->|[->|[->|[->|[->|[->|[->| ->]]]]]]] by lia;
    vm_compute; (split; [discriminate|reflexivity]).
Qed.

Lemma states_valid_insert b b' p t :
  states_valid b → grid b' = <[p := t]> (grid b) → 0 ≤ t < 8 → states_valid b'.
Proof.
  intros Hv Hg Ht q s. rewrite Hg. destruct (decide (q = p)) as [->|Hq].
  - rewrite lookup_insert_eq. by intros [= <-].
  - rewrite lookup_insert_ne by done. apply Hv.
Qed.

Lemma elem_size_pos (X : gset (Z * Z)) q : q ∈ X → (0 < size X)%nat.
Proof.
  intros Hq. assert (H : ({[q]} : gset (Z * Z)) ⊆ X).
  { intros x ->%elem_of_singleton. done. }
  apply subseteq_size in H. rewrite size_singleton in H. lia.
Qed.

Lemma no_elem_size (X : gset (Z * Z)) : (∀ q, q ∉ X) → size X = 0%nat.
Proof.
  intros H. destruct (decide (size X = 0%nat)) as [|Hn]; [done|].
  destruct (size_pos_elem_of X) as [x Hx]; [lia|]. by destruct (H x).
Qed.

Lemma played_fair_count cols lines mines b :
  0 ≤ cols → 0 ≤ lines → is_sample cols lines mines →
  played_fair cols lines mines b →
  states_valid b ∧
  cells_revealed b + Z.of_nat (size (cells_in_state _SAFE b))
  + Z.of_nat (size (cells_in_state _FLAGGED b)) = safe_cells b.
Proof.
  intros Hc Hl Hs. induction 1 as [|b fuel p fl b' _ [Hv IH] Hfair H].
  - split; [apply random_valid|].
    destruct (random_board cols lines mines Hc Hl Hs) as (_ & _ & _ & -> & _).
    rewrite (no_elem_size (cells_in_state _FLAGGED _)); [simpl; lia|].
    intros q. rewrite elem_of_cells_in_state, random_lookup.
    case_decide; [|done]. case_bool_decide; discriminate.
  - destruct fuel as [|fuel]; [done|].
    destruct (grid b !! p) as [s|] eqn:Hp; [|simpl in H; by rewrite Hp in H].
    pose proof (Hv p s Hp) as Hrange.
    destruct fl.
    + destruct (decide (s = _OPEN)) as [->|Hs'].
      { rewrite (action_open_noop _ _ _ _ Hp) in H. by injection H as <-. }
      rewrite (action_flag_eq fuel b p s Hp Hs') in H. injection H as <-.
      split.
      { eapply (states_valid_insert b); [done..|]. by apply valid_toggle. }
      match goal with
      | |- context [cells_in_state _SAFE ?B] =>
          rewrite (cells_in_state_insert_size b B p s (Z.lxor s _FLAGGED) _SAFE Hp eq_refl),
                  (cells_in_state_insert_size b B p s (Z.lxor s _FLAGGED) _FLAGGED Hp eq_refl)
      end.
      simpl.
      assert (E0 : Z.lxor s _FLAGGED = _SAFE ↔ s = _FLAGGED).
      { split; [intros E; by rewrite <- (lxor_FLAGGED_twice s), E|by intros ->]. }
      assert (E2 : Z.lxor s _FLAGGED = _FLAGGED ↔ s = _SAFE).
      { split; [intros E; by rewrite <- (lxor_FLAGGED_twice s), E|by intros ->]. }
      repeat case_decide; try lia; tauto.
    + destruct Hfair as [?|Hfair]; [done|].
      destruct (decide (Z.land s _MINE = _MINE)) as [Hm|Hm].
      * simpl in H. rewrite Hp in H.
        destruct (valid_mine s Hrange Hm) as [->|[->|[->| ->]]]; simpl in H.
        -- unfold reveal in H. simpl in H. rewrite Hp in H. simpl in H.
           injection H as <-. split.
           { eapply (states_valid_insert b); [done..|].
             vm_compute. split; [discriminate|reflexivity]. }
           match goal with
           | |- context [cells_in_state _SAFE ?B] =>
               rewrite (cells_in_state_insert_size b B p 1 5 _SAFE Hp eq_refl),
                       (cells_in_state_insert_size b B p 1 5 _FLAGGED Hp eq_refl)
           end.
           rewrite !decide_False by done. simpl. lia.
        -- by injection H as <-.
        -- by destruct Hfair.
        -- by injection H as <-.
      * destruct (action_count (S fuel) b p s b' Hv Hp Hm H) as [S1 E1].
        split; [by apply (grid_step_valid _ _ S1)|].
        rewrite (grid_step_flagged b b' S1).
        change (cells_in_state _SAFE b') with (safe_set b').
        change (cells_in_state _SAFE b) with (safe_set b) in IH.
        assert (K : bits_kept b b') by (apply (action_bits_kept (S fuel) b p false); by rewrite H).
        destruct K as (_ & _ & -> & _). lia.
Qed.

Lemma played_fair_reachable cols lines mines b :
  played_fair cols lines mines b → reachable cols lines mines b.
Proof.
  induction 1 as [|b fuel p fl b' _ IH _ H]; [apply reachable_random|].
  eapply reachable_action; [done|]. by rewrite H.
Qed.

(** X17: the count of revealed cells is right as long as no reveal click
    lands on a mine that is already open: on a board built by [random] from
    a sample of distinct grid cells and played by clicks that return,
    [cells_revealed] plus the number of closed mine-free cells (unflagged
    and flagged) is [safe_cells]; so [cells_revealed] lies between 0 and
    [safe_cells], and the win test [cells_revealed == safe_cells] of the
    game loop holds exactly when every mine-free cell is open. *)
Theorem cells_revealed_counts_open_cells (cols lines : Z) (mines : list (Z * Z))
    (b : MineSweeperBoard) :
  0 ≤ cols → 0 ≤ lines → is_sample cols lines mines →
  played_fair cols lines mines b →
  cells_revealed b + Z.of_nat (size (cells_in_state _SAFE b))
  + Z.of_nat (size (cells_in_state _FLAGGED b)) = safe_cells b ∧
  0 ≤ cells_revealed b ≤ safe_cells b ∧
  (cells_revealed b = safe_cells b ↔
   ∀ q s, grid b !! q = Some s → Z.land s _MINE ≠ _MINE → Z.land s _OPEN = _OPEN).
Proof.
  intros Hc Hl Hs Hp.
  destruct (played_fair_count cols lines mines b Hc Hl Hs Hp) as [Hv Hcount].
  pose proof (reachable_bits_kept _ _ _ _ (played_fair_reachable _ _ _ _ Hp))
    as (_ & _ & _ & Hmono & _). simpl in Hmono.
  split; [done|]. split; [lia|]. split.
  - intros E q s Hq Hm.
    destruct (valid_no_mine s (Hv _ _ Hq) Hm) as [->|[->|[->| ->]]]; [| |done..].
    + apply (elem_of_cells_in_state _SAFE), elem_size_pos in Hq. lia.
    + apply (elem_of_cells_in_state _FLAGGED), elem_size_pos in Hq. lia.
  - intros Hall.
    rewrite (no_elem_size (cells_in_state _SAFE b)),
            (no_elem_size (cells_in_state _FLAGGED b)) in Hcount; [lia| |].
    + intros q Hq%elem_of_cells_in_state.
      pose proof (Hall q _ Hq ltac:(discriminate)) as E. discriminate E.
    + intros q Hq%elem_of_cells_in_state.
      pose proof (Hall q _ Hq ltac:(discriminate)) as E. discriminate E.
Qed.

Lemma cells_revealed_counts_open_cells_witness :
  ∃ b1, action 1 board_3x3 (0, 0) false = Done b1 ∧
        cells_revealed b1 + Z.of_nat (size (cells_in_state _SAFE b1))
        + Z.of_nat (size (cells_in_state _FLAGGED b1)) = 8.
Proof.
  eexists. split; [apply board_3x3_first_click|].
  destruct (cells_revealed_counts_open_cells 3 3 [(1, 1)]
              (set_hints {[ (0, 0) := 1 ]}
                 (set_cells_revealed 1
                    (set_grid (<[(0, 0) := _OPEN]> (grid board_3x3))
                       (set_last_clicked (Some _SAFE) board_3x3)))))
    as (H1 & _); [lia..| | |exact H1].
  - split; [by apply NoDup_singleton|]. intros p ->%list_elem_of_singleton.
    apply elem_of_cells. simpl. lia.
  - eapply (played_fair_action _ _ _ _ 1 (0, 0) false); [apply played_fair_random| |].
    + right. vm_compute. discriminate.
    + apply board_3x3_first_click.
Defined.

(** ** Losing a round *)

(** X18: the losing path: when a round is not yet won, a reveal click on a
    closed, unflagged mine followed by [update] ends the round as lost:
    play is off, [won] is false, every mine is shown in state [_OPEN_MINE],
    every other cell is as before the click, and [last_clicked] is reset. *)
Theorem mine_click_loses (fuel : nat) (g : MineSweeperGame) (p : Z * Z) :
  grid (board g) !! p = Some _MINE →
  0 < mines_left (board g) →
  cells_revealed (board g) ≠ safe_cells (board g) →
  ∃ b', action (S fuel) (board g) p false = Done b' ∧
        let g' := update (mkGame (game_cols g) (game_lines g) (game_mines g)
                                 (playing g) (won g) b') in
        playing g' = false ∧ won g' = false ∧
        last_clicked (board g') = None ∧
        (∀ q s, grid (board g) !! q = Some s → Z.land s _MINE = _MINE →
                grid (board g') !! q = Some _OPEN_MINE) ∧
        (∀ q s, grid (board g) !! q = Some s → Z.land s _MINE ≠ _MINE →
                grid (board g') !! q = Some s) ∧
        cells_revealed (board g') = cells_revealed (board g) ∧
        mines_left (board g') = mines_left (board g).
Proof.
  intros Hp Hm Hc.
  set (B := set_grid (<[p := _OPEN_MINE]> (grid (board g)))
              (set_last_clicked (Some _MINE) (board g))).
  exists B. split.
  { simpl. rewrite Hp. simpl. unfold reveal. simpl. rewrite Hp. simpl. done. }
  assert (Hu : update (mkGame (game_cols g) (game_lines g) (game_mines g)
                              (playing g) (won g) B)
               = mkGame (game_cols g) (game_lines g) (game_mines g) false false
                        (open_mines (set_last_clicked None B))).
  { unfold update. cbn [board playing won game_cols game_lines game_mines].
    change (mines_left B) with (mines_left (board g)).
    change (cells_revealed B) with (cells_revealed (board g)).
    change (safe_cells B) with (safe_cells (board g)).
    change (last_clicked B) with (Some _MINE).
    destruct (Z.leb_spec (mines_left (board g)) 0) as [|_]; [lia|].
    destruct (Z.eqb_spec (cells_revealed (board g)) (safe_cells (board g))) as [|_];
      [done|].
    by rewrite bool_decide_true. }
  cbv zeta. rewrite Hu. cbn [board playing won].
  assert (Hg : ∀ q, grid (open_mines (set_last_clicked None B)) !! q =
                    (λ s, if decide (Z.land s _MINE = _MINE) then _OPEN_MINE else s)
                      <$> <[p := _OPEN_MINE]> (grid (board g)) !! q).
  { intros q. by rewrite open_mines_lookup. }
  split_and!; try done.
  - intros q s Hq Hs. rewrite Hg. destruct (decide (q = p)) as [->|Hne].
    + by rewrite lookup_insert_eq.
    + rewrite lookup_insert_ne, Hq by done. simpl. by rewrite decide_True.
  - intros q s Hq Hs. rewrite Hg. destruct (decide (q = p)) as [->|Hne].
    + rewrite Hp in Hq. injection Hq as <-. by destruct Hs.
    + rewrite lookup_insert_ne, Hq by done. simpl. by rewrite decide_False.
Qed.

Lemma mine_click_loses_witness :
  ∃ b', action 1 board_3x3 (1, 1) false = Done b' ∧
        playing (update (mkGame 3 3 1 true false b')) = false ∧
        won (update (mkGame 3 3 1 true false b')) = false.
Proof.
  destruct (mine_click_loses 0 (mkGame 3 3 1 true false board_3x3) (1, 1))
    as (b' & H1 & H2 & H3 & _).
  - vm_compute. reflexivity.
  - vm_compute. reflexivity.
  - vm_compute. discriminate.
  - exists b'. by split_and!.
Defined.
